(** * sdlc-config: validation, merging and phase navigation

    A shallow embedding of the classes [ConfigLoader], [ConfigMerger] and
    [PhaseManager] ([src/implementations/ConfigLoader.ts]), of the types of
    [src/types/ConfigTypes.ts] and of the schema [sdlcConfigSchema].

    Conventions of the embedding.
    - A TypeScript interface is a record; an optional property [p?: T] is a
      field of type [option T], and [None] is the absent property.
      Configurations come from YAML or JSON documents, where no property
      has the value [undefined]; object spread is modelled for such
      objects.
    - An open-ended object used as a dictionary ([Record<string, T>]) is a
      [gmap string T]; a value of type [unknown] is a [JValue]; a [number]
      is a rational.
    - [Set<string>] is a [gset string]; the insertion-ordered [Map] of the
      merger is an association list ([JsMap]).
    - [Array.prototype.forEach] over a mutable accumulator is [forEach],
      which threads the accumulator explicitly; [push] appends at the end.
    - A function that throws or returns a rejected promise returns a
      [Promise] value; the functions of the merger and of the phase manager
      have no throwing path and are total functions.
    - The logger is an external observer and is left out: no result of the
      modelled functions depends on it.
    - The file system, the YAML parser and the compiled Ajv validator are
      collaborators of the loader; they are parameters of its functions. *)

From stdpp Require Import base option list strings gmap pretty.
From Stdlib Require Import QArith Ascii String.

Close Scope Q_scope.
Open Scope string_scope.

(** ** JavaScript helpers *)

(** Values of type [unknown] (metadata, custom integrations). *)
#[local] Unset Elimination Schemes.
Inductive JValue : Type :=
  | JUndefined
  | JNull
  | JBool (b : bool)
  | JNum (n : Q)
  | JStr (s : string)
  | JArr (items : list JValue)
  | JObj (props : gmap string JValue).
#[local] Set Elimination Schemes.

(** Truthiness of a string: every string but the empty one. *)
Definition truthy (s : string) : bool :=
  match s with EmptyString => false | String _ _ => true end.

(** [a || b] on strings. *)
Definition str_or (a b : string) : string := if truthy a then a else b.

(** [a || b] where [a] and [b] are optional strings. *)
Definition opt_str_or (a b : option string) : option string :=
  match a with
  | Some s => if truthy s then Some s else b
  | None => b
  end.

(** [a || b] where [a] is an optional array or object (always truthy when
    present), and [a ?? b] for any optional value. *)
Definition opt_or {A} (a b : option A) : option A :=
  match a with Some x => Some x | None => b end.

(** [{...base, ...override}] on dictionaries; spreading an absent object
    contributes no key. *)
Definition spread {V} (base override : gmap string V) : gmap string V :=
  override ∪ base.

Definition spread_opt {V} (base override : option (gmap string V)) : gmap string V :=
  spread (default ∅ base) (default ∅ override).

(** [l.forEach((a, i) => ...)] with the mutated state made explicit. *)
Fixpoint forEach_from {A St} (i : nat) (l : list A) (f : A → nat → St → St) (s : St) : St :=
  match l with
  | [] => s
  | a :: l' => forEach_from (S i) l' f (f a i s)
  end.

Definition forEach {A St} (l : list A) (f : A → nat → St → St) (s : St) : St :=
  forEach_from 0 l f s.

(** [l?.forEach(...)]. *)
Definition forEach_opt {A St} (l : option (list A)) (f : A → nat → St → St) (s : St) : St :=
  match l with Some l => forEach l f s | None => s end.

(** [arr.push(x)]. *)
Definition push {A} (arr : list A) (x : A) : list A := arr ++ [x].

(** [l.find(pred)]. *)
Fixpoint find {A} (pred : A → bool) (l : list A) : option A :=
  match l with
  | [] => None
  | a :: l' => if pred a then Some a else find pred l'
  end.

(** [l.some(pred)]. *)
Definition some {A} (pred : A → bool) (l : list A) : bool := existsb pred l.

(** [l.filter(pred)]. *)
Definition jfilter {A} (pred : A → bool) (l : list A) : list A := List.filter pred l.

(** [l.join(sep)] on strings. *)
Definition join (sep : string) (l : list string) : string := String.concat sep l.

(** [s.includes(needle)]. *)
Fixpoint includes (needle s : string) : bool :=
  if String.prefix needle s then true
  else match s with
       | EmptyString => false
       | String _ s' => includes needle s'
       end.

(** [JSON.parse(JSON.stringify(v))]: a property whose value is [undefined]
    is dropped from an object, and [undefined] in an array becomes [null]. *)
Definition is_undefined (v : JValue) : bool :=
  match v with JUndefined => true | _ => false end.

Fixpoint jsonCloneValue (v : JValue) : JValue :=
  match v with
  | JArr items =>
      JArr ((λ x, if is_undefined x then JNull else jsonCloneValue x) <$> items)
  | JObj props =>
      JObj (omap (λ x, if is_undefined x then None else Some (jsonCloneValue x)) props)
  | _ => v
  end.

Definition jsonCloneObject (m : gmap string JValue) : gmap string JValue :=
  omap (λ x, if is_undefined x then None else Some (jsonCloneValue x)) m.

(** [new Set(l)], [s.has(x)] and [s.add(x)]. *)
Definition set_of (l : list string) : gset string := list_to_set l.
Definition has (s : gset string) (x : string) : bool := bool_decide (x ∈ s).
Definition add (s : gset string) (x : string) : gset string := s ∪ {[x]}.

(** The insertion-ordered [Map<string, V>]: [set] on a key that is present
    replaces the value and keeps the key's position, [set] on a new key
    appends, [values()] lists the values in insertion order. *)
Module JsMap.
Definition t (V : Type) : Type := list (string * V).

Definition empty {V} : t V := [].

Fixpoint get {V} (m : t V) (k : string) : option V :=
  match m with
  | [] => None
  | (k', v) :: m' => if String.eqb k' k then Some v else get m' k
  end.

Fixpoint set {V} (m : t V) (k : string) (v : V) : t V :=
  match m with
  | [] => [(k, v)]
  | (k', v') :: m' =>
      if String.eqb k' k then (k', v) :: m' else (k', v') :: set m' k v
  end.

Definition keys {V} (m : t V) : list string := fst <$> m.
Definition values {V} (m : t V) : list V := snd <$> m.
End JsMap.

(** ** Data model ([src/types/ConfigTypes.ts]) *)

Inductive TaskType := manual | automated | review | approval.

Record ISDLCTask := {
  task_id : string;
  task_name : string;
  task_description : option string;
  task_type : TaskType;
  required : bool;
  dependencies : option (list string);
  estimatedDuration : option string;
  assignee : option string;
  tools : option (list string);
  outputs : option (list string)
}.

Record ISDLCPhase := {
  phase_id : string;
  phase_name : string;
  phase_description : option string;
  objectives : list string;
  deliverables : list string;
  entryConditions : list string;
  exitConditions : list string;
  tasks : list ISDLCTask;
  nextPhases : list string;
  phase_requiresApproval : option bool;
  phase_metadata : option (gmap string JValue)
}.

Record ISDLCTransition := {
  from : string;
  to : string;
  conditions : list string;
  requiresApproval : option bool;
  approvers : option (list string);
  transition_metadata : option (gmap string JValue)
}.

Record ITimeoutSettings := {
  phaseTimeout : option string;
  taskTimeout : option string;
  approvalTimeout : option string;
  warningThreshold : option Q
}.

Record IIntegrationSettings := {
  githubEnabled : option bool;
  slackEnabled : option bool;
  emailEnabled : option bool;
  webhookUrl : option string;
  customIntegrations : option (gmap string JValue)
}.

Record IWorkflowSettings := {
  requireApprovalForTransitions : option bool;
  defaultApprovers : option (list string);
  notificationChannels : option (list string);
  timeoutSettings : option ITimeoutSettings;
  integrations : option IIntegrationSettings
}.

Record ISDLCWorkflow := {
  wf_id : string;
  wf_name : string;
  wf_description : option string;
  wf_version : string;
  initialPhase : string;
  phases : list ISDLCPhase;
  transitions : list ISDLCTransition;
  globalSettings : option IWorkflowSettings;
  wf_metadata : option (gmap string JValue)
}.

Record IEnvironmentConfig := {
  env_name : string;
  env_description : option string;
  overrides : option IWorkflowSettings;
  featureFlags : option (gmap string bool);
  variables : option (gmap string string)
}.

Record ISDLCConfig := {
  version : string;
  workflows : list ISDLCWorkflow;
  environments : option (list IEnvironmentConfig);
  defaultWorkflow : option string;
  defaultEnvironment : option string;
  metadata : option (gmap string JValue)
}.

Inductive ErrorType := err_missing | err_invalid | err_conflict | err_reference.
Inductive WarningType := deprecated | unused | performance | best_practice.

Record IValidationError := {
  err_path : string;
  err_message : string;
  err_type : ErrorType
}.

Record IValidationWarning := {
  warn_path : string;
  warn_message : string;
  warn_type : WarningType
}.

Record IConfigValidationResult := {
  valid : bool;
  errors : list IValidationError;
  warnings : list IValidationWarning
}.

(** The empty object [{}] at the two record types that are spread. *)
Definition emptyTimeoutSettings : ITimeoutSettings :=
  {| phaseTimeout := None; taskTimeout := None; approvalTimeout := None;
     warningThreshold := None |}.

Definition emptyIntegrationSettings : IIntegrationSettings :=
  {| githubEnabled := None; slackEnabled := None; emailEnabled := None;
     webhookUrl := None; customIntegrations := None |}.

(** [{...base, ...override}] at these record types: every property that
    [override] has replaces [base]'s, every other property of [base] is
    kept; an absent operand contributes nothing. *)
Definition spreadTimeoutSettings (base override : option ITimeoutSettings) : ITimeoutSettings :=
  let b := default emptyTimeoutSettings base in
  let o := default emptyTimeoutSettings override in
  {| phaseTimeout := opt_or (phaseTimeout o) (phaseTimeout b);
     taskTimeout := opt_or (taskTimeout o) (taskTimeout b);
     approvalTimeout := opt_or (approvalTimeout o) (approvalTimeout b);
     warningThreshold := opt_or (warningThreshold o) (warningThreshold b) |}.

Definition spreadIntegrationSettings (base override : option IIntegrationSettings) : IIntegrationSettings :=
  let b := default emptyIntegrationSettings base in
  let o := default emptyIntegrationSettings override in
  {| githubEnabled := opt_or (githubEnabled o) (githubEnabled b);
     slackEnabled := opt_or (slackEnabled o) (slackEnabled b);
     emailEnabled := opt_or (emailEnabled o) (emailEnabled b);
     webhookUrl := opt_or (webhookUrl o) (webhookUrl b);
     customIntegrations := opt_or (customIntegrations o) (customIntegrations b) |}.

(** ** ConfigLoader *)

(** What [yaml.load] does with a text: it returns the parsed document or
    throws a [YAMLException].  Only documents that have the shape of
    [ISDLCConfig] are represented. *)
Inductive YamlOutcome :=
  | YamlParsed (config : ISDLCConfig)
  | YamlException (message : string).

(** An Ajv [ErrorObject], and the state of a compiled [ValidateFunction]
    after a call: its boolean result and its [errors] property. *)
Record ErrorObject := {
  instancePath : string;
  message : option string
}.

Record AjvOutcome := {
  ajv_valid : bool;
  ajv_errors : option (list ErrorObject)
}.

(** A promise that has settled: resolved with a value, or rejected with an
    [Error] carrying a message. *)
Inductive Promise (A : Type) :=
  | Resolved (value : A)
  | Rejected (message : string).
Arguments Resolved {A} value.
Arguments Rejected {A} message.

Module ConfigLoader.
Section WithCollaborators.
(** [fs.readFile(path, 'utf-8')], [yaml.load] and
    [ajv.compile(sdlcConfigSchema)]. *)
Variable readFile : string → Promise string.
Variable yaml_load : string → YamlOutcome.
Variable validateFunction : ISDLCConfig → AjvOutcome.

Definition validate (config : ISDLCConfig) : IConfigValidationResult :=
  let errors : list IValidationError := [] in
  let warnings : list IValidationWarning := [] in
  (* Schema validation *)
  let outcome := validateFunction config in
  let errors :=
    match ajv_valid outcome, ajv_errors outcome with
    | false, Some schemaErrors =>
        forEach schemaErrors (λ error _ errors,
          push errors
            {| err_path := str_or (instancePath error) "/";
               err_message :=
                 match message error with
                 | Some m => str_or m "Unknown validation error"
                 | None => "Unknown validation error"
                 end;
               err_type := err_invalid |}) errors
    | _, _ => errors
    end in
  (* Custom validation rules: phase references *)
  let errors :=
    forEach (workflows config) (λ workflow wIndex errors,
      let phaseIds := set_of (phase_id <$> phases workflow) in
      (* Check initial phase exists *)
      let errors :=
        if truthy (initialPhase workflow) && negb (has phaseIds (initialPhase workflow))
        then push errors
               {| err_path := "/workflows/" ++ pretty wIndex ++ "/initialPhase";
                  err_message := "Initial phase '" ++ initialPhase workflow
                                 ++ "' not found in workflow phases";
                  err_type := err_reference |}
        else errors in
      (* Check phase transitions *)
      let errors :=
        forEach (phases workflow) (λ phase pIndex errors,
          let errors :=
            forEach (nextPhases phase) (λ nextPhaseId nIndex errors,
              if negb (has phaseIds nextPhaseId)
              then push errors
                     {| err_path := "/workflows/" ++ pretty wIndex ++ "/phases/"
                                    ++ pretty pIndex ++ "/nextPhases/" ++ pretty nIndex;
                        err_message := "Next phase '" ++ nextPhaseId
                                       ++ "' not found in workflow phases";
                        err_type := err_reference |}
              else errors) errors in
          (* Check task dependencies *)
          let taskIds := set_of (task_id <$> tasks phase) in
          forEach (tasks phase) (λ task tIndex errors,
            forEach_opt (dependencies task) (λ depId dIndex errors,
              if negb (has taskIds depId)
              then push errors
                     {| err_path := "/workflows/" ++ pretty wIndex ++ "/phases/"
                                    ++ pretty pIndex ++ "/tasks/" ++ pretty tIndex
                                    ++ "/dependencies/" ++ pretty dIndex;
                        err_message := "Task dependency '" ++ depId
                                       ++ "' not found in phase tasks";
                        err_type := err_reference |}
              else errors) errors) errors) errors in
      (* Check transitions *)
      forEach (transitions workflow) (λ transition tIndex errors,
        let errors :=
          if negb (has phaseIds (from transition))
          then push errors
                 {| err_path := "/workflows/" ++ pretty wIndex ++ "/transitions/"
                                ++ pretty tIndex ++ "/from";
                    err_message := "Transition source phase '" ++ from transition
                                   ++ "' not found";
                    err_type := err_reference |}
          else errors in
        if negb (has phaseIds (to transition))
        then push errors
               {| err_path := "/workflows/" ++ pretty wIndex ++ "/transitions/"
                              ++ pretty tIndex ++ "/to";
                  err_message := "Transition target phase '" ++ to transition
                                 ++ "' not found";
                  err_type := err_reference |}
        else errors) errors) errors in
  (* Check for unused phases *)
  let warnings :=
    forEach (workflows config) (λ workflow wIndex warnings,
      let referencedPhases : gset string := ∅ in
      let referencedPhases :=
        if truthy (initialPhase workflow)
        then add referencedPhases (initialPhase workflow)
        else referencedPhases in
      let referencedPhases :=
        forEach (transitions workflow) (λ t _ referencedPhases,
          add (add referencedPhases (from t)) (to t)) referencedPhases in
      let referencedPhases :=
        forEach (phases workflow) (λ p _ referencedPhases,
          forEach (nextPhases p) (λ np _ referencedPhases,
            add referencedPhases np) referencedPhases) referencedPhases in
      forEach (phases workflow) (λ phase pIndex warnings,
        if negb (has referencedPhases (phase_id phase))
        then push warnings
               {| warn_path := "/workflows/" ++ pretty wIndex ++ "/phases/"
                               ++ pretty pIndex;
                  warn_message := "Phase '" ++ phase_id phase
                                  ++ "' is not referenced by any transition or phase";
                  warn_type := unused |}
        else warnings) warnings) warnings in
  (* Check for deprecated features *)
  let warnings :=
    match metadata config with
    | Some md =>
        if bool_decide (is_Some (md !! "legacyMode"))
        then push warnings
               {| warn_path := "/metadata/legacyMode";
                  warn_message :=
                    "The legacyMode flag is deprecated and will be removed in future versions";
                  warn_type := deprecated |}
        else warnings
    | None => warnings
    end in
  Build_IConfigValidationResult (Nat.eqb (List.length errors) 0) errors warnings.

Definition loadFromString (content : string) : Promise ISDLCConfig :=
  match yaml_load content with
  | YamlException message => Rejected ("Invalid YAML syntax: " ++ message)
  | YamlParsed config =>
      let validationResult := validate config in
      if negb (valid validationResult)
      then
        let errorMessages :=
          str_or
            (join ", " ((λ e, err_path e ++ ": " ++ err_message e)
                        <$> errors validationResult))
            "Unknown validation error" in
        Rejected ("Invalid configuration: " ++ errorMessages)
      else Resolved config
  end.

Definition loadFromFile (filePath : string) : Promise ISDLCConfig :=
  let wrap message :=
    Rejected ("Failed to load configuration from " ++ filePath ++ ": " ++ message) in
  match readFile filePath with
  | Rejected message => wrap message
  | Resolved content =>
      match loadFromString content with
      | Rejected message => wrap message
      | Resolved config => Resolved config
      end
  end.
End WithCollaborators.
End ConfigLoader.

(** ** ConfigMerger *)

(** [JSON.parse(JSON.stringify(config))] at the record types: an absent
    property stays absent, and the dictionaries of [unknown] values are
    cloned by [jsonCloneObject]. *)
Module JsonClone.
Definition phase (p : ISDLCPhase) : ISDLCPhase :=
  {| phase_id := phase_id p; phase_name := phase_name p;
     phase_description := phase_description p; objectives := objectives p;
     deliverables := deliverables p; entryConditions := entryConditions p;
     exitConditions := exitConditions p; tasks := tasks p;
     nextPhases := nextPhases p;
     phase_requiresApproval := phase_requiresApproval p;
     phase_metadata := jsonCloneObject <$> phase_metadata p |}.

Definition transition (t : ISDLCTransition) : ISDLCTransition :=
  {| from := from t; to := to t; conditions := conditions t;
     requiresApproval := requiresApproval t; approvers := approvers t;
     transition_metadata := jsonCloneObject <$> transition_metadata t |}.

Definition integrationSettings (i : IIntegrationSettings) : IIntegrationSettings :=
  {| githubEnabled := githubEnabled i; slackEnabled := slackEnabled i;
     emailEnabled := emailEnabled i; webhookUrl := webhookUrl i;
     customIntegrations := jsonCloneObject <$> customIntegrations i |}.

Definition workflowSettings (s : IWorkflowSettings) : IWorkflowSettings :=
  {| requireApprovalForTransitions := requireApprovalForTransitions s;
     defaultApprovers := defaultApprovers s;
     notificationChannels := notificationChannels s;
     timeoutSettings := timeoutSettings s;
     integrations := integrationSettings <$> integrations s |}.

Definition workflow (w : ISDLCWorkflow) : ISDLCWorkflow :=
  {| wf_id := wf_id w; wf_name := wf_name w; wf_description := wf_description w;
     wf_version := wf_version w; initialPhase := initialPhase w;
     phases := phase <$> phases w;
     transitions := transition <$> transitions w;
     globalSettings := workflowSettings <$> globalSettings w;
     wf_metadata := jsonCloneObject <$> wf_metadata w |}.

Definition environment (e : IEnvironmentConfig) : IEnvironmentConfig :=
  {| env_name := env_name e; env_description := env_description e;
     overrides := workflowSettings <$> overrides e;
     featureFlags := featureFlags e; variables := variables e |}.

Definition config (c : ISDLCConfig) : ISDLCConfig :=
  {| version := version c;
     workflows := workflow <$> workflows c;
     environments := (λ envs : list IEnvironmentConfig, environment <$> envs)
                       <$> environments c;
     defaultWorkflow := defaultWorkflow c;
     defaultEnvironment := defaultEnvironment c;
     metadata := jsonCloneObject <$> metadata c |}.
End JsonClone.

Module ConfigMerger.
Definition mergeMetadata (base override : option (gmap string JValue))
  : option (gmap string JValue) :=
  match base, override with
  | None, None => None
  | None, Some _ => override
  | Some _, None => base
  | Some b, Some o => Some (spread b o)
  end.

Definition mergeWorkflowSettings (base override : option IWorkflowSettings)
  : option IWorkflowSettings :=
  match base, override with
  | None, None => None
  | None, Some _ => override
  | Some _, None => base
  | Some base, Some override =>
      Some
        {| requireApprovalForTransitions :=
             opt_or (requireApprovalForTransitions override)
                    (requireApprovalForTransitions base);
           defaultApprovers :=
             opt_or (defaultApprovers override) (defaultApprovers base);
           notificationChannels :=
             opt_or (notificationChannels override) (notificationChannels base);
           timeoutSettings :=
             Some (spreadTimeoutSettings (timeoutSettings base)
                                         (timeoutSettings override));
           integrations :=
             Some (spreadIntegrationSettings (integrations base)
                                             (integrations override)) |}
  end.

(** [{...base, ...override, globalSettings: ..., metadata: ...}]: the
    required properties are [override]'s, [description] is [override]'s
    when it has one. *)
Definition mergeWorkflow (base override : ISDLCWorkflow) : ISDLCWorkflow :=
  {| wf_id := wf_id override;
     wf_name := wf_name override;
     wf_description := opt_or (wf_description override) (wf_description base);
     wf_version := wf_version override;
     initialPhase := initialPhase override;
     phases := phases override;
     transitions := transitions override;
     globalSettings :=
       mergeWorkflowSettings (globalSettings base) (globalSettings override);
     wf_metadata := mergeMetadata (wf_metadata base) (wf_metadata override) |}.

Definition mergeWorkflows (baseWorkflows : list ISDLCWorkflow)
    (overrideWorkflows : option (list ISDLCWorkflow)) : list ISDLCWorkflow :=
  match overrideWorkflows with
  | None | Some [] => baseWorkflows
  | Some overrideWorkflows =>
      let workflowMap : JsMap.t ISDLCWorkflow := JsMap.empty in
      (* Add base workflows *)
      let workflowMap :=
        forEach baseWorkflows (λ workflow _ workflowMap,
          JsMap.set workflowMap (wf_id workflow) workflow) workflowMap in
      (* Override or add new workflows *)
      let workflowMap :=
        forEach overrideWorkflows (λ workflow _ workflowMap,
          match JsMap.get workflowMap (wf_id workflow) with
          | Some existing =>
              JsMap.set workflowMap (wf_id workflow) (mergeWorkflow existing workflow)
          | None => JsMap.set workflowMap (wf_id workflow) workflow
          end) workflowMap in
      JsMap.values workflowMap
  end.

Definition mergeEnvironments (base override : option (list IEnvironmentConfig))
  : option (list IEnvironmentConfig) :=
  match base, override with
  | None, None => None
  | None, Some _ => override
  | Some _, None => base
  | Some base, Some override =>
      let envMap : JsMap.t IEnvironmentConfig := JsMap.empty in
      let envMap :=
        forEach base (λ env _ envMap, JsMap.set envMap (env_name env) env) envMap in
      let envMap :=
        forEach override (λ env _ envMap,
          match JsMap.get envMap (env_name env) with
          | Some existing =>
              JsMap.set envMap (env_name env)
                {| env_name := env_name env;
                   env_description :=
                     opt_or (env_description env) (env_description existing);
                   overrides :=
                     mergeWorkflowSettings (overrides existing) (overrides env);
                   featureFlags :=
                     Some (spread_opt (featureFlags existing) (featureFlags env));
                   variables :=
                     Some (spread_opt (variables existing) (variables env)) |}
          | None => JsMap.set envMap (env_name env) env
          end) envMap in
      Some (JsMap.values envMap)
  end.

Definition merge (base override : ISDLCConfig) : ISDLCConfig :=
  {| version := str_or (version override) (version base);
     workflows := mergeWorkflows (workflows base) (Some (workflows override));
     environments := mergeEnvironments (environments base) (environments override);
     defaultWorkflow := opt_str_or (defaultWorkflow override) (defaultWorkflow base);
     defaultEnvironment :=
       opt_str_or (defaultEnvironment override) (defaultEnvironment base);
     metadata := mergeMetadata (metadata base) (metadata override) |}.

Definition withGlobalSettings (w : ISDLCWorkflow) (s : option IWorkflowSettings)
  : ISDLCWorkflow :=
  {| wf_id := wf_id w; wf_name := wf_name w; wf_description := wf_description w;
     wf_version := wf_version w; initialPhase := initialPhase w;
     phases := phases w; transitions := transitions w;
     globalSettings := s; wf_metadata := wf_metadata w |}.

(** A dictionary of strings or booleans seen as a value of type [unknown]. *)
Definition unknownOf {V} (inj : V → JValue) (m : option (gmap string V)) : JValue :=
  match m with Some m => JObj (inj <$> m) | None => JUndefined end.

Definition mergeEnvironment (config : ISDLCConfig) (environmentName : string)
  : ISDLCConfig :=
  let environment :=
    match environments config with
    | Some envs => find (λ env, String.eqb (env_name env) environmentName) envs
    | None => None
    end in
  match environment with
  | None => config
  | Some environment =>
      (* Deep clone the config to avoid mutations *)
      let merged := JsonClone.config config in
      (* Apply environment overrides to each workflow *)
      let mergedWorkflows :=
        match overrides environment with
        | Some envOverrides =>
            (λ workflow,
               match globalSettings workflow with
               | Some settings =>
                   withGlobalSettings workflow
                     (mergeWorkflowSettings (Some settings) (Some envOverrides))
               | None => withGlobalSettings workflow (Some envOverrides)
               end) <$> workflows merged
        | None => workflows merged
        end in
      (* Add environment metadata *)
      let mergedMetadata :=
        <["featureFlags" := unknownOf JBool (featureFlags environment)]>
          (<["environmentVariables" := unknownOf JStr (variables environment)]>
             (<["appliedEnvironment" := JStr environmentName]>
                (default ∅ (metadata merged)))) in
      {| version := version merged;
         workflows := mergedWorkflows;
         environments := environments merged;
         defaultWorkflow := defaultWorkflow merged;
         defaultEnvironment := defaultEnvironment merged;
         metadata := Some mergedMetadata |}
  end.
End ConfigMerger.

(** ** PhaseManager *)

Module PhaseManager.
(** The manager's state: [private config: ISDLCConfig | null]. *)
Record t := { config : option ISDLCConfig }.

Definition new : t := {| config := None |}.

Definition setConfig (this : t) (newConfig : ISDLCConfig) : t :=
  {| config := Some newConfig |}.

Definition getWorkflow (this : t) (workflowId : string) : option ISDLCWorkflow :=
  match config this with
  | None => None
  | Some config => find (λ w, String.eqb (wf_id w) workflowId) (workflows config)
  end.

Definition getPhase (this : t) (workflowId phaseId : string) : option ISDLCPhase :=
  match config this with
  | None => None
  | Some config =>
      match find (λ w, String.eqb (wf_id w) workflowId) (workflows config) with
      | None => None
      | Some workflow =>
          find (λ p, String.eqb (phase_id p) phaseId) (phases workflow)
      end
  end.

Definition implicitTransition (currentPhaseId nextPhaseId : string) : ISDLCTransition :=
  {| from := currentPhaseId; to := nextPhaseId; conditions := [];
     requiresApproval := None; approvers := None;
     transition_metadata := Some {[ "implicit" := JBool true ]} |}.

Definition getAvailableTransitions (this : t) (workflowId currentPhaseId : string)
  : list ISDLCTransition :=
  match config this with
  | None => []
  | Some config =>
      match find (λ w, String.eqb (wf_id w) workflowId) (workflows config) with
      | None => []
      | Some workflow =>
          match getPhase this workflowId currentPhaseId with
          | None => []
          | Some phase =>
              (* Get transitions from current phase *)
              let availableTransitions :=
                jfilter (λ t, String.eqb (from t) currentPhaseId)
                        (transitions workflow) in
              (* Also check phase.nextPhases for implicit transitions *)
              let explicitTransitionTargets := set_of (to <$> availableTransitions) in
              forEach (nextPhases phase) (λ nextPhaseId _ availableTransitions,
                if negb (has explicitTransitionTargets nextPhaseId)
                then push availableTransitions
                       (implicitTransition currentPhaseId nextPhaseId)
                else availableTransitions) availableTransitions
          end
      end
  end.

Definition canTransition (this : t) (workflowId fromId toId : string) : bool :=
  let availableTransitions := getAvailableTransitions this workflowId fromId in
  some (λ t, String.eqb (to t) toId) availableTransitions.

Definition validatePhaseCompletion (this : t) (workflowId phaseId : string)
  : IConfigValidationResult :=
  let errors : list IValidationError := [] in
  let warnings : list IValidationWarning := [] in
  match config this with
  | None =>
      let errors :=
        push errors {| err_path := "/"; err_message := "No configuration loaded";
                       err_type := err_missing |} in
      Build_IConfigValidationResult false errors warnings
  | Some _ =>
      match getPhase this workflowId phaseId with
      | None =>
          let errors :=
            push errors
              {| err_path := "/workflows/" ++ workflowId ++ "/phases/" ++ phaseId;
                 err_message := "Phase not found";
                 err_type := err_missing |} in
          Build_IConfigValidationResult false errors warnings
      | Some phase =>
          (* Check exit conditions *)
          let warnings :=
            if Nat.eqb (List.length (exitConditions phase)) 0
            then push warnings
                   {| warn_path := "/workflows/" ++ workflowId ++ "/phases/"
                                   ++ phaseId ++ "/exitConditions";
                      warn_message := "Phase has no exit conditions defined";
                      warn_type := best_practice |}
            else warnings in
          (* Check if phase has any valid transitions *)
          let availableTransitions :=
            getAvailableTransitions this workflowId phaseId in
          let warnings :=
            if Nat.eqb (List.length availableTransitions) 0
               && Nat.eqb (List.length (nextPhases phase)) 0
            then push warnings
                   {| warn_path := "/workflows/" ++ workflowId ++ "/phases/" ++ phaseId;
                      warn_message := "Phase has no available transitions or next phases";
                      warn_type := best_practice |}
            else warnings in
          Build_IConfigValidationResult (Nat.eqb (List.length errors) 0) errors warnings
      end
  end.

Definition getAllPhases (this : t) (workflowId : string) : list ISDLCPhase :=
  match getWorkflow this workflowId with
  | Some workflow => phases workflow
  | None => []
  end.
End PhaseManager.

(** ** The schema gate

    [sdlcConfigSchema] as it bears on values of the record types above.
    The types already give every property its JSON type, the required
    properties and the [enum] of task types, and the [uri] format is
    registered as always valid; what a typed configuration can still
    violate is the [pattern] of [version], [minItems: 1] on [workflows] and
    on [phases], and the range of [warningThreshold].  Ajv runs with
    [allErrors], so every violation is reported. *)
Module Schema.
Definition isDigit (c : ascii) : bool :=
  let n := nat_of_ascii c in ((48 <=? n)%nat && (n <=? 57)%nat)%bool.

Fixpoint skipDigits (s : string) : string :=
  match s with
  | String c s' => if isDigit c then skipDigits s' else s
  | EmptyString => s
  end.

(** [\d+] at the head of [s]: the rest of [s] after the digits. *)
Definition digits (s : string) : option string :=
  match s with
  | String c s' => if isDigit c then Some (skipDigits s') else None
  | EmptyString => None
  end.

(** [\.] at the head of [s]. *)
Definition dot (s : string) : option string :=
  match s with
  | String c s' => if Ascii.eqb c "."%char then Some s' else None
  | EmptyString => None
  end.

Definition andThen (r : option string) (p : string → option string) : option string :=
  match r with Some rest => p rest | None => None end.

(** [^\d+\.\d+\.\d+$] *)
Definition matchesVersionPattern (s : string) : bool :=
  match andThen (andThen (andThen (andThen (digits s) dot) digits) dot) digits with
  | Some EmptyString => true
  | _ => false
  end.

Definition dquote : string := String (ascii_of_nat 34) EmptyString.

Definition thresholdErrors (path : string) (s : option IWorkflowSettings)
  : list ErrorObject :=
  let threshold :=
    match s with
    | Some settings =>
        match timeoutSettings settings with
        | Some ts => warningThreshold ts
        | None => None
        end
    | None => None
    end in
  match threshold with
  | Some n =>
      if negb (Qle_bool 0%Q n) then
        [ {| instancePath := path ++ "/timeoutSettings/warningThreshold";
             message := Some "must be >= 0" |} ]
      else if negb (Qle_bool n 100%Q) then
        [ {| instancePath := path ++ "/timeoutSettings/warningThreshold";
             message := Some "must be <= 100" |} ]
      else []
  | None => []
  end.

Definition workflowErrors (wIndex : nat) (w : ISDLCWorkflow) : list ErrorObject :=
  let path := "/workflows/" ++ pretty wIndex in
  (match phases w with
   | [] => [ {| instancePath := path ++ "/phases";
                message := Some "must NOT have fewer than 1 items" |} ]
   | _ => []
   end)
  ++ thresholdErrors (path ++ "/globalSettings") (globalSettings w).

Definition environmentErrors (eIndex : nat) (e : IEnvironmentConfig) : list ErrorObject :=
  thresholdErrors ("/environments/" ++ pretty eIndex ++ "/overrides") (overrides e).

Definition violations (config : ISDLCConfig) : list ErrorObject :=
  (if matchesVersionPattern (version config) then []
   else [ {| instancePath := "/version";
             message := Some ("must match pattern " ++ dquote
                              ++ "^\d+\.\d+\.\d+$" ++ dquote) |} ])
  ++ (match workflows config with
      | [] => [ {| instancePath := "/workflows";
                   message := Some "must NOT have fewer than 1 items" |} ]
      | ws => mjoin (imap workflowErrors ws)
      end)
  ++ mjoin (imap environmentErrors (default [] (environments config))).

(** The compiled validator: [true] and no [errors] on a conforming
    configuration, [false] and the list of violations otherwise. *)
Definition validateFunction (config : ISDLCConfig) : AjvOutcome :=
  match violations config with
  | [] => {| ajv_valid := true; ajv_errors := None |}
  | errs => {| ajv_valid := false; ajv_errors := Some errs |}
  end.
End Schema.

(** ** Fixtures: the configurations of the repository's unit tests *)

Module Fixtures.
Definition task (id : string) (req : bool) (deps : option (list string)) : ISDLCTask :=
  {| task_id := id; task_name := id; task_description := None; task_type := manual;
     required := req; dependencies := deps; estimatedDuration := None;
     assignee := None; tools := None; outputs := None |}.

Definition phase (id : string) (exits : list string) (ts : list ISDLCTask)
    (next : list string) : ISDLCPhase :=
  {| phase_id := id; phase_name := id; phase_description := None;
     objectives := ["Test"]; deliverables := ["Test"]; entryConditions := ["Test"];
     exitConditions := exits; tasks := ts; nextPhases := next;
     phase_requiresApproval := None; phase_metadata := None |}.

Definition transition (f t : string) (conds : list string) : ISDLCTransition :=
  {| from := f; to := t; conditions := conds; requiresApproval := None;
     approvers := None; transition_metadata := None |}.

Definition workflow (id initial : string) (ps : list ISDLCPhase)
    (trs : list ISDLCTransition) : ISDLCWorkflow :=
  {| wf_id := id; wf_name := id; wf_description := None; wf_version := "1.0.0";
     initialPhase := initial; phases := ps; transitions := trs;
     globalSettings := None; wf_metadata := None |}.

Definition configOf (v : string) (ws : list ISDLCWorkflow) : ISDLCConfig :=
  {| version := v; workflows := ws; environments := None; defaultWorkflow := None;
     defaultEnvironment := None; metadata := None |}.

(** [tests/unit/PhaseManager.test.ts], [testConfig]. *)
Definition testPhase1 : ISDLCPhase :=
  phase "phase1" ["Exit 1"]
    [ task "task1" true None; task "task2" false (Some ["task1"]) ]
    ["phase2"; "phase3"].
Definition testPhase2 : ISDLCPhase := phase "phase2" ["Exit 2"] [] ["phase3"].
Definition testPhase3 : ISDLCPhase := phase "phase3" [] [] [].

Definition testWorkflow : ISDLCWorkflow :=
  workflow "test-workflow" "phase1"
    [ testPhase1; testPhase2; testPhase3 ]
    [ transition "phase1" "phase2" ["Condition 1"];
      transition "phase2" "phase3" ["Condition 2"] ].

Definition testConfig : ISDLCConfig := configOf "1.0.0" [ testWorkflow ].

(** The loader's tests: a correct configuration, dangling references, a
    dangling task dependency, an unused phase. *)
Definition correctConfig : ISDLCConfig :=
  configOf "1.0.0" [ workflow "test" "phase1" [ phase "phase1" ["Test"] [] [] ] [] ].

Definition danglingConfig : ISDLCConfig :=
  configOf "1.0.0"
    [ workflow "test" "nonexistent"
        [ phase "phase1" ["Test"] [] ["nonexistent2"] ]
        [ transition "phase1" "nonexistent3" [] ] ].

Definition danglingDependencyConfig : ISDLCConfig :=
  configOf "1.0.0"
    [ workflow "test" "phase1"
        [ phase "phase1" ["Test"] [ task "task1" true (Some ["nonexistent"]) ] [] ]
        [] ].

Definition unusedPhaseConfig : ISDLCConfig :=
  configOf "1.0.0"
    [ workflow "test" "phase1"
        [ phase "phase1" ["Test"] [] []; phase "phase2" ["Test"] [] [] ] [] ].

(** Two explicit transitions between the same two phases, with different
    conditions; every reference resolves. *)
Definition parallelEdgesConfig : ISDLCConfig :=
  configOf "1.0.0"
    [ workflow "wf" "a"
        [ phase "a" ["done"] [] ["b"]; phase "b" ["done"] [] [] ]
        [ transition "a" "b" ["tests pass"];
          transition "a" "b" ["hotfix approved"] ] ].

(** A phase whose [nextPhases] lists the same phase twice, and no explicit
    transition. *)
Definition repeatedNextConfig : ISDLCConfig :=
  configOf "1.0.0"
    [ workflow "wf" "a"
        [ phase "a" ["done"] [] ["b"; "b"]; phase "b" ["done"] [] [] ]
        [] ].

(** A phase that is the source of a transition and the target of none. *)
Definition sourceOnlyConfig : ISDLCConfig :=
  configOf "1.0.0"
    [ workflow "wf" "p1"
        [ phase "p1" ["done"] [] []; phase "p2" ["done"] [] [] ]
        [ transition "p2" "p1" [] ] ].

(** [correctConfig] with a version of two components. *)
Definition shortVersionConfig : ISDLCConfig :=
  configOf "1.0" [ workflow "test" "phase1" [ phase "phase1" ["Test"] [] [] ] [] ].

(** [tests/unit/ConfigMerger.test.ts], "should merge workflow settings". *)
Definition baseSettings : IWorkflowSettings :=
  {| requireApprovalForTransitions := Some true;
     defaultApprovers := Some ["user1"];
     notificationChannels := None;
     timeoutSettings :=
       Some {| phaseTimeout := Some "7 days"; taskTimeout := None;
               approvalTimeout := None; warningThreshold := None |};
     integrations := None |}.

Definition overrideSettings : IWorkflowSettings :=
  {| requireApprovalForTransitions := None;
     defaultApprovers := Some ["user2"; "user3"];
     notificationChannels := None;
     timeoutSettings :=
       Some {| phaseTimeout := None; taskTimeout := Some "24 hours";
               approvalTimeout := None; warningThreshold := None |};
     integrations := None |}.

(** A base configuration naming its default workflow, and an override
    whose [defaultWorkflow] is present and is the empty string. *)
Definition withDefaultWorkflow (c : ISDLCConfig) (d : option string) : ISDLCConfig :=
  {| version := version c; workflows := workflows c;
     environments := environments c; defaultWorkflow := d;
     defaultEnvironment := defaultEnvironment c; metadata := metadata c |}.

Definition namedDefaultConfig : ISDLCConfig :=
  withDefaultWorkflow correctConfig (Some "test").

Definition emptyDefaultConfig : ISDLCConfig :=
  withDefaultWorkflow correctConfig (Some EmptyString).

(** A configuration with one environment, [dev]. *)
Definition devEnvironment : IEnvironmentConfig :=
  {| env_name := "dev"; env_description := None;
     overrides := Some overrideSettings; featureFlags := None; variables := None |}.

Definition devConfig : ISDLCConfig :=
  {| version := "1.0.0"; workflows := workflows correctConfig;
     environments := Some [devEnvironment]; defaultWorkflow := None;
     defaultEnvironment := None; metadata := None |}.

(** Two phases with the same identifier: the first has an exit condition,
    the second has none; every reference resolves. *)
Definition shadowedPhase : ISDLCPhase := phase "x" [] [] [].

Definition shadowedPhaseWorkflow : ISDLCWorkflow :=
  workflow "wf" "x" [ phase "x" ["done"] [] []; shadowedPhase ] [].

Definition shadowedPhaseConfig : ISDLCConfig :=
  configOf "1.0.0" [ shadowedPhaseWorkflow ].

(** A parser that yields a given document, whatever the text. *)
Definition parsesTo (doc : ISDLCConfig) : string → YamlOutcome :=
  λ _, YamlParsed doc.

Definition testManager : PhaseManager.t :=
  PhaseManager.setConfig PhaseManager.new testConfig.
End Fixtures.

(** ** Vocabulary of the statements *)

(** The explicit transitions that leave a phase, in declared order. *)
Definition explicitFrom (w : ISDLCWorkflow) (phaseId : string) : list ISDLCTransition :=
  jfilter (λ t, String.eqb (from t) phaseId) (transitions w).

(** [result] is [override] when [override] is present, and [base] otherwise. *)
Definition takenFrom {A} (override base result : option A) : Prop :=
  (∀ v, override = Some v → result = Some v) ∧ (override = None → result = base).

(** [result] is [override] when [override] is present and is not the empty
    string, and [base] otherwise. *)
Definition takenFromNonEmpty (override base result : option string) : Prop :=
  (∀ s, override = Some s → s ≠ EmptyString → result = Some s)
  ∧ (override = None ∨ override = Some EmptyString → result = base).

(** [obj?.key] *)
Definition prop {R A} (key : R → option A) (obj : option R) : option A :=
  match obj with Some o => key o | None => None end.

(** Every value of the map is stored under the key computed from it. *)
Definition keyed {V} (key : V → string) (m : JsMap.t V) : Prop :=
  Forall (λ kv, key kv.2 = kv.1) m.

(** Every reference of a configuration resolves to a sibling: the
    [initialPhase], the [nextPhases] and the endpoints of the transitions
    name phases of the same workflow, and the dependencies of a task name
    tasks of the same phase. *)
Definition taskResolved (p : ISDLCPhase) (t : ISDLCTask) : Prop :=
  Forall (λ d, d ∈ task_id <$> tasks p) (default [] (dependencies t)).

Definition phaseResolved (w : ISDLCWorkflow) (p : ISDLCPhase) : Prop :=
  Forall (λ n, n ∈ phase_id <$> phases w) (nextPhases p)
  ∧ Forall (taskResolved p) (tasks p).

Definition transitionResolved (w : ISDLCWorkflow) (t : ISDLCTransition) : Prop :=
  from t ∈ phase_id <$> phases w ∧ to t ∈ phase_id <$> phases w.

Definition workflowResolved (w : ISDLCWorkflow) : Prop :=
  initialPhase w ∈ phase_id <$> phases w
  ∧ Forall (phaseResolved w) (phases w)
  ∧ Forall (transitionResolved w) (transitions w).

Definition referencesResolve (config : ISDLCConfig) : Prop :=
  Forall workflowResolved (workflows config).

(** The warning that [validate] attaches to an unused phase. *)
Definition unusedWarning (wIndex pIndex : nat) (p : ISDLCPhase) : IValidationWarning :=
  {| warn_path := "/workflows/" ++ pretty wIndex ++ "/phases/" ++ pretty pIndex;
     warn_message := "Phase '" ++ phase_id p
                     ++ "' is not referenced by any transition or phase";
     warn_type := unused |}.

(** ** Vocabulary of the further properties *)

(** The schema violations that [validate] reads from the compiled
    validator: its [errors], when it answered [false] and has some. *)
Definition schemaErrorsOf (o : AjvOutcome) : list ErrorObject :=
  match ajv_valid o, ajv_errors o with
  | false, Some es => es
  | _, _ => []
  end.

(** The errors that [validate] reports. *)
Definition invalidError (e : ErrorObject) : IValidationError :=
  {| err_path := str_or (instancePath e) "/";
     err_message :=
       match message e with
       | Some m => str_or m "Unknown validation error"
       | None => "Unknown validation error"
       end;
     err_type := err_invalid |}.

Definition initialPhaseError (wIndex : nat) (initial : string) : IValidationError :=
  {| err_path := "/workflows/" ++ pretty wIndex ++ "/initialPhase";
     err_message := "Initial phase '" ++ initial ++ "' not found in workflow phases";
     err_type := err_reference |}.

Definition nextPhaseError (wIndex pIndex nIndex : nat) (nextPhaseId : string)
  : IValidationError :=
  {| err_path := "/workflows/" ++ pretty wIndex ++ "/phases/" ++ pretty pIndex
                 ++ "/nextPhases/" ++ pretty nIndex;
     err_message := "Next phase '" ++ nextPhaseId ++ "' not found in workflow phases";
     err_type := err_reference |}.

Definition dependencyError (wIndex pIndex tIndex dIndex : nat) (depId : string)
  : IValidationError :=
  {| err_path := "/workflows/" ++ pretty wIndex ++ "/phases/" ++ pretty pIndex
                 ++ "/tasks/" ++ pretty tIndex ++ "/dependencies/" ++ pretty dIndex;
     err_message := "Task dependency '" ++ depId ++ "' not found in phase tasks";
     err_type := err_reference |}.

Definition transitionFromError (wIndex tIndex : nat) (source : string) : IValidationError :=
  {| err_path := "/workflows/" ++ pretty wIndex ++ "/transitions/" ++ pretty tIndex
                 ++ "/from";
     err_message := "Transition source phase '" ++ source ++ "' not found";
     err_type := err_reference |}.

Definition transitionToError (wIndex tIndex : nat) (target : string) : IValidationError :=
  {| err_path := "/workflows/" ++ pretty wIndex ++ "/transitions/" ++ pretty tIndex
                 ++ "/to";
     err_message := "Transition target phase '" ++ target ++ "' not found";
     err_type := err_reference |}.

(** The references that [validate] checks: as [workflowResolved], but an
    empty [initialPhase] is not looked up. *)
Definition workflowIntact (w : ISDLCWorkflow) : Prop :=
  (initialPhase w = EmptyString ∨ initialPhase w ∈ phase_id <$> phases w)
  ∧ Forall (phaseResolved w) (phases w)
  ∧ Forall (transitionResolved w) (transitions w).

Definition referencesIntact (config : ISDLCConfig) : Prop :=
  Forall workflowIntact (workflows config).

(** A phase that nothing refers to: it is not the (non-empty) initial
    phase, no transition starts or ends at it, no phase lists it. *)
Definition unreferenced (w : ISDLCWorkflow) (p : ISDLCPhase) : Prop :=
  (initialPhase w = EmptyString ∨ phase_id p ≠ initialPhase w)
  ∧ Forall (λ t, from t ≠ phase_id p ∧ to t ≠ phase_id p) (transitions w)
  ∧ Forall (λ q, phase_id p ∉ nextPhases q) (phases w).

Definition deprecatedWarning : IValidationWarning :=
  {| warn_path := "/metadata/legacyMode";
     warn_message :=
       "The legacyMode flag is deprecated and will be removed in future versions";
     warn_type := deprecated |}.

(** The configuration carries the deprecated flag: its [metadata] has a
    [legacyMode] key, whatever the value. *)
Definition usesLegacyMode (config : ISDLCConfig) : Prop :=
  ∃ md, metadata config = Some md ∧ is_Some (md !! "legacyMode").

(** The environment that [mergeEnvironments] stores for a name that both
    sides have. *)
Definition mergedEnvironment (existing env : IEnvironmentConfig) : IEnvironmentConfig :=
  {| env_name := env_name env;
     env_description := opt_or (env_description env) (env_description existing);
     overrides :=
       ConfigMerger.mergeWorkflowSettings (overrides existing) (overrides env);
     featureFlags := Some (spread_opt (featureFlags existing) (featureFlags env));
     variables := Some (spread_opt (variables existing) (variables env)) |}.

(** The warnings and errors of [validatePhaseCompletion]. *)
Definition exitConditionsWarning (workflowId phaseId : string) : IValidationWarning :=
  {| warn_path := "/workflows/" ++ workflowId ++ "/phases/" ++ phaseId
                  ++ "/exitConditions";
     warn_message := "Phase has no exit conditions defined";
     warn_type := best_practice |}.

Definition deadEndWarning (workflowId phaseId : string) : IValidationWarning :=
  {| warn_path := "/workflows/" ++ workflowId ++ "/phases/" ++ phaseId;
     warn_message := "Phase has no available transitions or next phases";
     warn_type := best_practice |}.

Definition noConfigurationError : IValidationError :=
  {| err_path := "/"; err_message := "No configuration loaded";
     err_type := err_missing |}.

Definition phaseNotFoundError (workflowId phaseId : string) : IValidationError :=
  {| err_path := "/workflows/" ++ workflowId ++ "/phases/" ++ phaseId;
     err_message := "Phase not found";
     err_type := err_missing |}.

(** * Facts about the JavaScript helpers *)

Section forEach_facts.
Context {A St : Type}.
Implicit Types (l : list A) (f : A → nat → St → St) (s : St).

(** An invariant of the loop body is an invariant of the loop. *)
Lemma forEach_from_invariant (P : St → Prop) f l i s :
  P s →
  (∀ k a s', l !! k = Some a → P s' → P (f a (i + k) s')) →
  P (forEach_from i l f s).
Proof.
  revert i s. induction l as [|a l IH]; intros i s Hs Hstep; simpl; [done|].
  apply IH.
  - specialize (Hstep 0 a s eq_refl Hs). by rewrite Nat.add_0_r in Hstep.
  - intros k b s' Hk Hs'. replace (S i + k) with (i + S k) by lia.
    by apply Hstep.
Qed.

Lemma forEach_invariant (P : St → Prop) f l s :
  P s →
  (∀ k a s', l !! k = Some a → P s' → P (f a k s')) →
  P (forEach l f s).
Proof. intros Hs Hstep. unfold forEach. by apply forEach_from_invariant. Qed.

(** What the body establishes at one element, and no body destroys, holds
    after the loop. *)
Lemma forEach_from_reach (Q : St → Prop) f l i s k a :
  l !! k = Some a →
  (∀ s', Q (f a (i + k) s')) →
  (∀ j b s', l !! j = Some b → Q s' → Q (f b (i + j) s')) →
  Q (forEach_from i l f s).
Proof.
  revert i s k. induction l as [|b l IH]; intros i s k Hk Hat Hkeep; [done|].
  destruct k as [|k]; simpl in *.
  - injection Hk as ->. apply forEach_from_invariant.
    + specialize (Hat s). by rewrite Nat.add_0_r in Hat.
    + intros j c s' Hj Hs'. replace (S i + j) with (i + S j) by lia.
      by apply Hkeep.
  - apply (IH _ _ k); [done| |].
    + intros s'. replace (S i + k) with (i + S k) by lia. apply Hat.
    + intros j c s' Hj Hs'. replace (S i + j) with (i + S j) by lia.
      by apply Hkeep.
Qed.

Lemma forEach_reach (Q : St → Prop) f l s k a :
  l !! k = Some a →
  (∀ s', Q (f a k s')) →
  (∀ j b s', l !! j = Some b → Q s' → Q (f b j s')) →
  Q (forEach l f s).
Proof.
  intros Hk Hat Hkeep. unfold forEach.
  by apply (forEach_from_reach Q f l 0 s k a).
Qed.
End forEach_facts.

(** A loop that pushes [g a] for the elements that pass a test appends the
    images of the filtered list. *)
Lemma forEach_from_push_filter {A B} (c : A → bool) (g : A → B) (l : list A)
    (i : nat) (acc : list B) :
  forEach_from i l (λ a _ acc, if c a then push acc (g a) else acc) acc
  = (acc ++ (g <$> jfilter c l))%list.
Proof.
  revert i acc. induction l as [|a l IH]; intros i acc; simpl.
  - by rewrite app_nil_r.
  - rewrite IH. unfold push. destruct (c a); simpl; [|done].
    by rewrite <- app_assoc.
Qed.

Lemma has_set_of (l : list string) (x : string) : has (set_of l) x = true ↔ x ∈ l.
Proof.
  unfold has, set_of. rewrite bool_decide_eq_true. apply elem_of_list_to_set.
Qed.

Lemma has_set_of_false (l : list string) (x : string) :
  has (set_of l) x = false ↔ x ∉ l.
Proof.
  unfold has, set_of. rewrite bool_decide_eq_false.
  by rewrite elem_of_list_to_set.
Qed.

Lemma jfilter_elem_of {A} (c : A → bool) (l : list A) (x : A) :
  x ∈ jfilter c l ↔ x ∈ l ∧ c x = true.
Proof.
  unfold jfilter. rewrite !list_elem_of_In. apply filter_In.
Qed.

Lemma jfilter_app {A} (c : A → bool) (l1 l2 : list A) :
  jfilter c (l1 ++ l2) = (jfilter c l1 ++ jfilter c l2)%list.
Proof. apply List.filter_app. Qed.

Lemma jfilter_NoDup {A} (c : A → bool) (l : list A) :
  NoDup l → NoDup (jfilter c l).
Proof.
  induction 1 as [|a l Ha _ IH]; simpl; [constructor|].
  destruct (c a); [|done]. constructor; [|done].
  intros [? _]%jfilter_elem_of. done.
Qed.

Lemma find_Some_elem_of {A} (c : A → bool) (l : list A) (x : A) :
  find c l = Some x → x ∈ l ∧ c x = true.
Proof.
  induction l as [|a l IH]; simpl; [done|].
  destruct (c a) eqn:Hc.
  - intros [= ->]. split; [left|done].
  - intros H. destruct (IH H). split; [by right|done].
Qed.

Lemma find_None_Forall {A} (c : A → bool) (l : list A) :
  find c l = None ↔ Forall (λ a, c a = false) l.
Proof.
  induction l as [|a l IH]; simpl.
  - split; [constructor|done].
  - destruct (c a) eqn:Hc.
    + split; [done|]. intros H. inversion H; congruence.
    + rewrite IH. split; [by constructor|]. by inversion 1.
Qed.

Lemma truthy_nonempty (s : string) : truthy s = true ↔ s ≠ EmptyString.
Proof. destruct s; simpl; split; done. Qed.

(** ** The insertion-ordered map *)

Section JsMap_facts.
Context {V : Type}.
Implicit Types (m : JsMap.t V) (k : string) (v : V).

Lemma JsMap_get_None m k : JsMap.get m k = None ↔ k ∉ JsMap.keys m.
Proof.
  unfold JsMap.keys. induction m as [|[k' v'] m IH]; simpl.
  - split; [intros _; apply not_elem_of_nil|done].
  - rewrite not_elem_of_cons. destruct (String.eqb_spec k' k) as [->|Hne].
    + split; [done|]. by intros [? _].
    + rewrite IH. split; [by intros ?; split|by intros [_ ?]].
Qed.

Lemma JsMap_keys_set m k v :
  JsMap.keys (JsMap.set m k v)
  = if decide (k ∈ JsMap.keys m) then JsMap.keys m else (JsMap.keys m ++ [k])%list.
Proof.
  unfold JsMap.keys. induction m as [|[k' v'] m IH]; csimpl.
  - done.
  - destruct (String.eqb_spec k' k) as [->|Hne]; csimpl.
    + rewrite decide_True; [done|left].
    + rewrite IH. destruct (decide (k ∈ fst <$> m)) as [Hin|Hnin].
      * rewrite decide_True; [done|by right].
      * rewrite decide_False; [done|]. rewrite not_elem_of_cons. done.
Qed.

Lemma JsMap_keys_set_elem_of m k v k' :
  k' ∈ JsMap.keys (JsMap.set m k v) ↔ k' = k ∨ k' ∈ JsMap.keys m.
Proof.
  rewrite JsMap_keys_set. case_decide.
  - split; [by right|]. by intros [->|?].
  - rewrite elem_of_app, list_elem_of_singleton. tauto.
Qed.

Lemma JsMap_keys_set_NoDup m k v :
  NoDup (JsMap.keys m) → NoDup (JsMap.keys (JsMap.set m k v)).
Proof.
  intros Hnd. rewrite JsMap_keys_set. case_decide; [done|].
  apply NoDup_app. split_and!; [done| |apply NoDup_singleton].
  intros x Hx Hx'. apply list_elem_of_singleton in Hx'. by subst.
Qed.

(** Every value is stored under the key computed from it. *)
Lemma JsMap_set_keyed (key : V → string) m k v :
  keyed key m → key v = k → keyed key (JsMap.set m k v).
Proof.
  unfold keyed. intros Hm Hv. induction m as [|[k' v'] m IH]; simpl.
  - by repeat constructor.
  - apply Forall_cons in Hm as [Hhd Htl]. simpl in Hhd.
    destruct (String.eqb_spec k' k) as [->|Hne].
    + by constructor.
    + constructor; [done|by apply IH].
Qed.

Lemma JsMap_values_keyed (key : V → string) m :
  keyed key m → key <$> JsMap.values m = JsMap.keys m.
Proof.
  unfold keyed, JsMap.values, JsMap.keys. induction 1 as [|[k v] m Hkv _ IH]; csimpl.
  - done.
  - simpl in Hkv. by rewrite Hkv, IH.
Qed.
End JsMap_facts.

(** * Phase navigation *)

Section navigation.
(** The result of [getAvailableTransitions] on a phase that is found: the
    explicit transitions, then one implicit transition for every entry of
    [nextPhases] that no explicit transition targets. *)
Lemma getAvailableTransitions_found this workflowId phaseId w p :
  PhaseManager.getWorkflow this workflowId = Some w →
  PhaseManager.getPhase this workflowId phaseId = Some p →
  PhaseManager.getAvailableTransitions this workflowId phaseId
  = (explicitFrom w phaseId
     ++ (PhaseManager.implicitTransition phaseId
           <$> jfilter (λ n, negb (has (set_of (to <$> explicitFrom w phaseId)) n))
                       (nextPhases p)))%list.
Proof.
  unfold PhaseManager.getWorkflow, PhaseManager.getAvailableTransitions. intros Hw Hp.
  destruct (PhaseManager.config this) as [cfg|]; [|done].
  rewrite Hw, Hp. unfold forEach. apply forEach_from_push_filter.
Qed.

Lemma to_implicitTransition phaseId (l : list string) :
  to <$> (PhaseManager.implicitTransition phaseId <$> l) = l.
Proof. induction l as [|x l IH]; csimpl; [done|]. by rewrite IH. Qed.

Lemma jfilter_none {A} (c : A → bool) (l : list A) :
  Forall (λ a, c a = false) l → jfilter c l = [].
Proof.
  induction 1 as [|a l Ha _ IH]; simpl; [done|]. by rewrite Ha.
Qed.

(** In a list whose keys are pairwise distinct, filtering on the key of an
    element leaves this element alone. *)
Lemma jfilter_unique_key {A} (key : A → string) (l : list A) (x : A) :
  NoDup (key <$> l) → x ∈ l →
  jfilter (λ y, String.eqb (key y) (key x)) l = [x].
Proof.
  induction l as [|a l IH]; csimpl; intros Hnd Hx.
  - by apply elem_of_nil in Hx.
  - apply NoDup_cons in Hnd as [Hnotin Hnd].
    apply elem_of_cons in Hx as [->|Hx].
    + rewrite String.eqb_refl. f_equal.
      apply jfilter_none, Forall_forall. intros y Hy.
      destruct (String.eqb_spec (key y) (key a)) as [Heq|]; [|done].
      exfalso. apply Hnotin. rewrite <- Heq. by apply list_elem_of_fmap_2.
    + destruct (String.eqb_spec (key a) (key x)) as [Heq|Hne].
      * exfalso. apply Hnotin. rewrite Heq. by apply list_elem_of_fmap_2.
      * by apply IH.
Qed.

(** Where identifiers are unique, as the data model asks, an element is the
    one that its identifier resolves to. *)
Lemma find_unique_key {A} (key : A → string) (l : list A) (x : A) :
  NoDup (key <$> l) → x ∈ l →
  find (λ y, String.eqb (key y) (key x)) l = Some x.
Proof.
  induction l as [|a l IH]; csimpl; intros Hnd Hx.
  - by apply elem_of_nil in Hx.
  - apply NoDup_cons in Hnd as [Hnotin Hnd].
    apply elem_of_cons in Hx as [->|Hx].
    + by rewrite String.eqb_refl.
    + destruct (String.eqb_spec (key a) (key x)) as [Heq|Hne].
      * exfalso. apply Hnotin. rewrite Heq. by apply list_elem_of_fmap_2.
      * by apply IH.
Qed.

Lemma getPhase_unique_ids this cfg w p :
  PhaseManager.config this = Some cfg →
  NoDup (wf_id <$> workflows cfg) → w ∈ workflows cfg →
  NoDup (phase_id <$> phases w) → p ∈ phases w →
  PhaseManager.getWorkflow this (wf_id w) = Some w
  ∧ PhaseManager.getPhase this (wf_id w) (phase_id p) = Some p.
Proof.
  intros Hcfg Hws Hw Hps Hp.
  unfold PhaseManager.getWorkflow, PhaseManager.getPhase. rewrite Hcfg.
  rewrite (find_unique_key wf_id _ _ Hws Hw). split; [done|].
  by apply find_unique_key.
Qed.
End navigation.

(** C1 (amended).  For a loaded configuration, a workflow [w] and a phase
    [p] that the identifiers [w.id] and [p.id] resolve to: when the explicit
    transitions of [w] that leave [p.id] have pairwise distinct targets and
    [p.nextPhases] lists no identifier twice,
    [getAvailableTransitions(w.id, p.id)] contains at most one transition
    per target phase; and for an explicit transition [t] with
    [t.from = p.id] and [t.to] listed in [p.nextPhases], the entries of the
    result whose [to] is [t.to] are [t] alone: no implicit duplicate is
    appended. *)
Theorem getAvailableTransitions_one_per_target
    (this : PhaseManager.t) (w : ISDLCWorkflow) (p : ISDLCPhase) :
  PhaseManager.getWorkflow this (wf_id w) = Some w →
  PhaseManager.getPhase this (wf_id w) (phase_id p) = Some p →
  NoDup (to <$> explicitFrom w (phase_id p)) →
  NoDup (nextPhases p) →
  NoDup (to <$> PhaseManager.getAvailableTransitions this (wf_id w) (phase_id p))
  ∧ ∀ t, t ∈ transitions w → from t = phase_id p → to t ∈ nextPhases p →
      jfilter (λ r, String.eqb (to r) (to t))
        (PhaseManager.getAvailableTransitions this (wf_id w) (phase_id p)) = [t].
Proof.
  intros Hw Hp Hexplicit Hnext.
  rewrite (getAvailableTransitions_found _ _ _ _ _ Hw Hp).
  set (explicit := explicitFrom w (phase_id p)) in *.
  set (fresh := jfilter _ (nextPhases p)).
  assert (Hfresh : ∀ x, x ∈ fresh → x ∉ to <$> explicit).
  { intros x [_ Hx]%jfilter_elem_of. apply has_set_of_false.
    by apply negb_true_iff. }
  split.
  - rewrite fmap_app, to_implicitTransition. apply NoDup_app. split_and!.
    + done.
    + intros x Hx Hx'. by apply (Hfresh x).
    + by apply jfilter_NoDup.
  - intros t Ht Hfrom Hto.
    assert (Hin : t ∈ explicit).
    { apply jfilter_elem_of. split; [done|]. by apply String.eqb_eq. }
    rewrite jfilter_app.
    rewrite (jfilter_unique_key to explicit t Hexplicit Hin).
    rewrite jfilter_none; [done|].
    apply Forall_forall. intros r Hr.
    destruct (String.eqb_spec (to r) (to t)) as [Heq|]; [|done].
    exfalso. apply (Hfresh (to r)).
    + rewrite <- (to_implicitTransition (phase_id p) fresh).
      by apply list_elem_of_fmap_2.
    + rewrite Heq. by apply list_elem_of_fmap_2.
Qed.

Lemma getAvailableTransitions_one_per_target_witness :
  NoDup (to <$> PhaseManager.getAvailableTransitions
                  Fixtures.testManager "test-workflow" "phase2")
  ∧ ∀ t, t ∈ transitions Fixtures.testWorkflow → from t = "phase2" →
      to t ∈ nextPhases Fixtures.testPhase2 →
      jfilter (λ r, String.eqb (to r) (to t))
        (PhaseManager.getAvailableTransitions
           Fixtures.testManager "test-workflow" "phase2") = [t].
Proof.
  apply (getAvailableTransitions_one_per_target
           Fixtures.testManager Fixtures.testWorkflow Fixtures.testPhase2).
  - reflexivity.
  - reflexivity.
  - vm_compute. apply NoDup_singleton.
  - vm_compute. apply NoDup_singleton.
Defined.

(** C1, as stated, fails: two explicit transitions from [a] to [b] are both
    returned, although [b] is also listed in [a.nextPhases]; the
    configuration passes validation. *)
Lemma getAvailableTransitions_parallel_edges :
  let this := PhaseManager.setConfig PhaseManager.new Fixtures.parallelEdgesConfig in
  let result := PhaseManager.getAvailableTransitions this "wf" "a" in
  valid (ConfigLoader.validate Schema.validateFunction Fixtures.parallelEdgesConfig) = true
  ∧ result = [ Fixtures.transition "a" "b" ["tests pass"];
               Fixtures.transition "a" "b" ["hotfix approved"] ]
  ∧ ¬ NoDup (to <$> result)
  ∧ List.length (jfilter (λ r, String.eqb (to r) "b") result) = 2.
Proof.
  split_and!; try by vm_compute.
  vm_compute. intros Hnd. apply NoDup_cons in Hnd as [Hnotin _].
  apply Hnotin. left.
Qed.

(** An identifier listed twice in [nextPhases] yields two implicit
    transitions: the set of explicit targets is not extended by the loop. *)
Example getAvailableTransitions_repeated_nextPhases :
  PhaseManager.getAvailableTransitions
    (PhaseManager.setConfig PhaseManager.new Fixtures.repeatedNextConfig) "wf" "a"
  = [ PhaseManager.implicitTransition "a" "b"; PhaseManager.implicitTransition "a" "b" ].
Proof. reflexivity. Qed.

(** The manager's unit tests on transitions. *)
Example getAvailableTransitions_phase1 :
  PhaseManager.getAvailableTransitions Fixtures.testManager "test-workflow" "phase1"
  = [ Fixtures.transition "phase1" "phase2" ["Condition 1"];
      PhaseManager.implicitTransition "phase1" "phase3" ].
Proof. reflexivity. Qed.

Example getAvailableTransitions_unknown_phase :
  PhaseManager.getAvailableTransitions Fixtures.testManager "test-workflow" "nonexistent"
  = [].
Proof. reflexivity. Qed.

Example canTransition_unit_tests :
  PhaseManager.canTransition Fixtures.testManager "test-workflow" "phase1" "phase2" = true
  ∧ PhaseManager.canTransition Fixtures.testManager "test-workflow" "phase1" "phase3" = true
  ∧ PhaseManager.canTransition Fixtures.testManager "test-workflow" "phase2" "phase1" = false.
Proof. by vm_compute. Qed.

(** C8 (amended).  For a loaded configuration, a workflow [w] and a phase
    [p] that the identifiers [w.id] and [p.id] resolve to (the first
    workflow with that identifier, and its first phase with that
    identifier), with no exit conditions, no [nextPhases] and no explicit
    transition of [w] leaving it, [validatePhaseCompletion(w.id, p.id)] is
    valid, has no error, and has exactly two best-practice warnings: the
    first's message contains "no exit conditions", the second's
    "no available transitions". *)
Theorem validatePhaseCompletion_dead_end
    (this : PhaseManager.t) (w : ISDLCWorkflow) (p : ISDLCPhase) :
  PhaseManager.getWorkflow this (wf_id w) = Some w →
  PhaseManager.getPhase this (wf_id w) (phase_id p) = Some p →
  exitConditions p = [] →
  nextPhases p = [] →
  Forall (λ t, from t ≠ phase_id p) (transitions w) →
  ∃ w1 w2,
    PhaseManager.validatePhaseCompletion this (wf_id w) (phase_id p)
    = {| valid := true; errors := []; warnings := [w1; w2] |}
    ∧ warn_type w1 = best_practice
    ∧ includes "no exit conditions" (warn_message w1) = true
    ∧ warn_type w2 = best_practice
    ∧ includes "no available transitions" (warn_message w2) = true.
Proof.
  intros Hw Hp Hexit Hnext Hfrom.
  assert (Hnone : PhaseManager.getAvailableTransitions this (wf_id w) (phase_id p) = []).
  { rewrite (getAvailableTransitions_found _ _ _ _ _ Hw Hp), Hnext. simpl.
    rewrite app_nil_r. apply jfilter_none.
    eapply Forall_impl; [exact Hfrom|]. intros t Ht. simpl.
    by apply String.eqb_neq. }
  unfold PhaseManager.validatePhaseCompletion.
  unfold PhaseManager.getWorkflow in Hw.
  destruct (PhaseManager.config this) as [cfg|] eqn:Hcfg; [|done].
  rewrite Hp, Hnone, Hexit, Hnext. simpl.
  eexists _, _. split; [reflexivity|]. by vm_compute.
Qed.

Lemma validatePhaseCompletion_dead_end_witness :
  ∃ w1 w2,
    PhaseManager.validatePhaseCompletion Fixtures.testManager "test-workflow" "phase3"
    = {| valid := true; errors := []; warnings := [w1; w2] |}
    ∧ warn_type w1 = best_practice
    ∧ includes "no exit conditions" (warn_message w1) = true
    ∧ warn_type w2 = best_practice
    ∧ includes "no available transitions" (warn_message w2) = true.
Proof.
  apply (validatePhaseCompletion_dead_end
           Fixtures.testManager Fixtures.testWorkflow Fixtures.testPhase3).
  - reflexivity.
  - reflexivity.
  - reflexivity.
  - reflexivity.
  - repeat constructor; discriminate.
Defined.

(** C8, as stated, fails: the second phase of [shadowedPhaseWorkflow]
    exists in the workflow, has no exit conditions, no [nextPhases] and no
    explicit transition leaving it, and the configuration passes
    validation; but its identifier resolves to the first phase, which has
    an exit condition, and [validatePhaseCompletion] returns one warning
    only. *)
Lemma validatePhaseCompletion_shadowed_phase :
  let this := PhaseManager.setConfig PhaseManager.new Fixtures.shadowedPhaseConfig in
  let w := Fixtures.shadowedPhaseWorkflow in
  let p := Fixtures.shadowedPhase in
  valid (ConfigLoader.validate Schema.validateFunction Fixtures.shadowedPhaseConfig)
  = true
  ∧ w ∈ workflows Fixtures.shadowedPhaseConfig
  ∧ p ∈ phases w
  ∧ exitConditions p = []
  ∧ nextPhases p = []
  ∧ Forall (λ t, from t ≠ phase_id p) (transitions w)
  ∧ PhaseManager.validatePhaseCompletion this (wf_id w) (phase_id p)
    = {| valid := true; errors := [];
         warnings := [ deadEndWarning "wf" "x" ] |}
  ∧ List.length
      (warnings (PhaseManager.validatePhaseCompletion this (wf_id w) (phase_id p)))
    ≠ 2.
Proof.
  split_and!; try reflexivity.
  - left.
  - right. left.
  - constructor.
  - discriminate.
Qed.

(** C10.  There is a loaded configuration with a workflow [w], a phase [a]
    of [w] and an identifier [b] of no phase of [w] for which
    [canTransition(w.id, a, b)] is [true] and [getAvailableTransitions]
    returns a transition to [b]: neither the target of an explicit
    transition nor an entry of [nextPhases] is checked against the phases
    of the workflow. *)
Theorem canTransition_dangling_target :
  ∃ (cfg : ISDLCConfig) (w : ISDLCWorkflow) (a b b' : string),
    let this := PhaseManager.setConfig PhaseManager.new cfg in
    PhaseManager.getWorkflow this (wf_id w) = Some w
    ∧ (∃ p, PhaseManager.getPhase this (wf_id w) a = Some p)
    ∧ Forall (λ p, phase_id p ≠ b ∧ phase_id p ≠ b') (phases w)
    ∧ PhaseManager.getPhase this (wf_id w) b = None
    ∧ PhaseManager.getPhase this (wf_id w) b' = None
    ∧ PhaseManager.canTransition this (wf_id w) a b = true
    ∧ PhaseManager.canTransition this (wf_id w) a b' = true
    ∧ to <$> PhaseManager.getAvailableTransitions this (wf_id w) a = [b; b'].
Proof.
  exists Fixtures.danglingConfig,
    (Fixtures.workflow "test" "nonexistent"
       [ Fixtures.phase "phase1" ["Test"] [] ["nonexistent2"] ]
       [ Fixtures.transition "phase1" "nonexistent3" [] ]),
    "phase1", "nonexistent3", "nonexistent2".
  split_and!; try by vm_compute.
  - by eexists.
  - repeat constructor; discriminate.
Qed.

(** * Merging *)

Lemma opt_or_takenFrom {A} (override base : option A) :
  takenFrom override base (opt_or override base).
Proof. split; [by intros v ->|by intros ->]. Qed.

Lemma opt_str_or_takenFromNonEmpty (override base : option string) :
  takenFromNonEmpty override base (opt_str_or override base).
Proof.
  split.
  - intros s -> Hs. simpl. by destruct s.
  - by intros [->| ->].
Qed.

(** C4.  For settings [base] and [override], both present, the merged
    settings take [requireApprovalForTransitions] from [override] when
    [override] sets it (to [true] or to [false]) and from [base] otherwise;
    [defaultApprovers] and [notificationChannels] are [override]'s array
    when it supplies one and [base]'s otherwise; [timeoutSettings] and
    [integrations] are objects in which every key is [override]'s when
    [override]'s object has it and [base]'s otherwise. *)
Theorem mergeWorkflowSettings_both_present (base override : IWorkflowSettings) :
  ∃ r ts ig,
    ConfigMerger.mergeWorkflowSettings (Some base) (Some override) = Some r
    ∧ takenFrom (requireApprovalForTransitions override)
                (requireApprovalForTransitions base)
                (requireApprovalForTransitions r)
    ∧ takenFrom (defaultApprovers override) (defaultApprovers base) (defaultApprovers r)
    ∧ takenFrom (notificationChannels override) (notificationChannels base)
                (notificationChannels r)
    ∧ timeoutSettings r = Some ts
    ∧ takenFrom (prop phaseTimeout (timeoutSettings override))
                (prop phaseTimeout (timeoutSettings base)) (phaseTimeout ts)
    ∧ takenFrom (prop taskTimeout (timeoutSettings override))
                (prop taskTimeout (timeoutSettings base)) (taskTimeout ts)
    ∧ takenFrom (prop approvalTimeout (timeoutSettings override))
                (prop approvalTimeout (timeoutSettings base)) (approvalTimeout ts)
    ∧ takenFrom (prop warningThreshold (timeoutSettings override))
                (prop warningThreshold (timeoutSettings base)) (warningThreshold ts)
    ∧ integrations r = Some ig
    ∧ takenFrom (prop githubEnabled (integrations override))
                (prop githubEnabled (integrations base)) (githubEnabled ig)
    ∧ takenFrom (prop slackEnabled (integrations override))
                (prop slackEnabled (integrations base)) (slackEnabled ig)
    ∧ takenFrom (prop emailEnabled (integrations override))
                (prop emailEnabled (integrations base)) (emailEnabled ig)
    ∧ takenFrom (prop webhookUrl (integrations override))
                (prop webhookUrl (integrations base)) (webhookUrl ig)
    ∧ takenFrom (prop customIntegrations (integrations override))
                (prop customIntegrations (integrations base)) (customIntegrations ig).
Proof.
  eexists _, _, _. split; [reflexivity|]. simpl.
  split_and!; try reflexivity; try apply opt_or_takenFrom.
  all: destruct (timeoutSettings override), (timeoutSettings base),
         (integrations override), (integrations base); simpl;
       apply opt_or_takenFrom.
Qed.

(** The merger's unit test on settings: the approval flag of the base
    survives, the approvers are replaced, the timeouts are merged by key. *)
Example mergeWorkflowSettings_unit_test :
  ConfigMerger.mergeWorkflowSettings (Some Fixtures.baseSettings)
                                     (Some Fixtures.overrideSettings)
  = Some {| requireApprovalForTransitions := Some true;
            defaultApprovers := Some ["user2"; "user3"];
            notificationChannels := None;
            timeoutSettings :=
              Some {| phaseTimeout := Some "7 days"; taskTimeout := Some "24 hours";
                      approvalTimeout := None; warningThreshold := None |};
            integrations := Some emptyIntegrationSettings |}.
Proof. reflexivity. Qed.

(** C5 (amended).  [merge(base, override)] takes [version],
    [defaultWorkflow] and [defaultEnvironment] from [override] when
    [override] has the field and its value is not the empty string, and
    from [base] otherwise. *)
Theorem merge_scalar_fields (base override : ISDLCConfig) :
  let merged := ConfigMerger.merge base override in
  takenFromNonEmpty (Some (version override)) (Some (version base))
                    (Some (version merged))
  ∧ takenFromNonEmpty (defaultWorkflow override) (defaultWorkflow base)
                      (defaultWorkflow merged)
  ∧ takenFromNonEmpty (defaultEnvironment override) (defaultEnvironment base)
                      (defaultEnvironment merged).
Proof.
  simpl. split_and!; try apply opt_str_or_takenFromNonEmpty.
  split.
  - intros s [= <-] Hs. unfold str_or. by destruct (version override).
  - intros [[=]|[= ->]]. done.
Qed.

(** C5, as stated, fails: an override whose [defaultWorkflow] is present and
    empty does not replace the base's. *)
Lemma merge_empty_defaultWorkflow :
  defaultWorkflow Fixtures.emptyDefaultConfig = Some EmptyString
  ∧ defaultWorkflow Fixtures.namedDefaultConfig = Some "test"
  ∧ defaultWorkflow
      (ConfigMerger.merge Fixtures.namedDefaultConfig Fixtures.emptyDefaultConfig)
    = Some "test"
  ∧ defaultWorkflow
      (ConfigMerger.merge Fixtures.namedDefaultConfig Fixtures.emptyDefaultConfig)
    ≠ defaultWorkflow Fixtures.emptyDefaultConfig.
Proof. split_and!; try reflexivity. discriminate. Qed.

(** A loop whose body stores, for each element, a value under the element's
    key leaves a map with pairwise distinct keys, one per key seen. *)
Section keyed_loops.
Context {V : Type} (key : V → string).

Lemma keyed_set_loop (f : V → nat → JsMap.t V → JsMap.t V) (l : list V)
    (i : nat) (m0 : JsMap.t V) :
  (∀ x j m, ∃ v, f x j m = JsMap.set m (key x) v ∧ key v = key x) →
  NoDup (JsMap.keys m0) → keyed key m0 →
  NoDup (JsMap.keys (forEach_from i l f m0))
  ∧ keyed key (forEach_from i l f m0)
  ∧ ∀ k, k ∈ JsMap.keys (forEach_from i l f m0)
         ↔ k ∈ JsMap.keys m0 ∨ k ∈ key <$> l.
Proof.
  intros Hbody. revert i m0.
  induction l as [|x l IH]; intros i m0 Hnd Hkeyed; csimpl.
  - split_and!; [done|done|]. intros k. rewrite elem_of_nil. tauto.
  - destruct (Hbody x i m0) as (v & -> & Hv).
    destruct (IH (S i) (JsMap.set m0 (key x) v)) as (Hnd' & Hkeyed' & Hkeys').
    + by apply JsMap_keys_set_NoDup.
    + by apply JsMap_set_keyed.
    + split_and!; [done|done|]. intros k.
      rewrite Hkeys', JsMap_keys_set_elem_of, elem_of_cons. tauto.
Qed.
End keyed_loops.

Lemma mergeWorkflows_ids (baseWorkflows overrideWorkflows : list ISDLCWorkflow) :
  overrideWorkflows ≠ [] →
  NoDup (wf_id <$> ConfigMerger.mergeWorkflows baseWorkflows (Some overrideWorkflows))
  ∧ ∀ i, i ∈ wf_id <$> ConfigMerger.mergeWorkflows baseWorkflows (Some overrideWorkflows)
         ↔ i ∈ wf_id <$> baseWorkflows ∨ i ∈ wf_id <$> overrideWorkflows.
Proof.
  intros Hne. unfold ConfigMerger.mergeWorkflows.
  destruct overrideWorkflows as [|o os]; [done|].
  set (ov := o :: os). unfold forEach.
  destruct (keyed_set_loop wf_id
              (λ workflow _ workflowMap,
                 JsMap.set workflowMap (wf_id workflow) workflow)
              baseWorkflows 0 JsMap.empty) as (Hnd1 & Hkeyed1 & Hkeys1).
  { intros x j m. by exists x. }
  { constructor. }
  { constructor. }
  set (m1 := forEach_from 0 baseWorkflows _ JsMap.empty) in *.
  destruct (keyed_set_loop wf_id
              (λ workflow (_ : nat) workflowMap,
                 match JsMap.get workflowMap (wf_id workflow) with
                 | Some existing =>
                     JsMap.set workflowMap (wf_id workflow)
                       (ConfigMerger.mergeWorkflow existing workflow)
                 | None => JsMap.set workflowMap (wf_id workflow) workflow
                 end)
              ov 0 m1) as (Hnd2 & Hkeyed2 & Hkeys2); [|done|done|].
  { intros x j m. destruct (JsMap.get m (wf_id x)) as [existing|].
    - by exists (ConfigMerger.mergeWorkflow existing x).
    - by exists x. }
  rewrite (JsMap_values_keyed wf_id _ Hkeyed2). split; [done|].
  intros i. rewrite Hkeys2, Hkeys1. unfold JsMap.keys, JsMap.empty. csimpl.
  rewrite elem_of_nil. tauto.
Qed.

(** C6.  For every configuration [A], the workflows of [merge(A, A)] carry
    pairwise distinct identifiers, and these identifiers are exactly the
    identifiers of the workflows of [A]: one workflow per distinct
    identifier of [A], none duplicated. *)
Theorem merge_self_one_workflow_per_id (A : ISDLCConfig) :
  NoDup (wf_id <$> workflows (ConfigMerger.merge A A))
  ∧ ∀ i, i ∈ wf_id <$> workflows (ConfigMerger.merge A A)
         ↔ i ∈ wf_id <$> workflows A.
Proof.
  simpl. destruct (workflows A) as [|w ws] eqn:HA.
  - simpl. split; [constructor|done].
  - destruct (mergeWorkflows_ids (w :: ws) (w :: ws)) as [Hnd Hids]; [done|].
    split; [done|]. intros i. rewrite Hids. tauto.
Qed.

(** The merger's unit tests on workflows: a workflow that only the override
    has is appended after the base's; a workflow of both is merged in
    place. *)
Example merge_disjoint_workflows :
  wf_id <$> workflows (ConfigMerger.merge Fixtures.testConfig Fixtures.correctConfig)
  = ["test-workflow"; "test"].
Proof. reflexivity. Qed.

Example merge_self_testConfig :
  wf_id <$> workflows (ConfigMerger.merge Fixtures.testConfig Fixtures.testConfig)
  = ["test-workflow"].
Proof. reflexivity. Qed.

(** C7.  When no environment of [cfg] is named [name] (in particular when
    [cfg] has no [environments]), [mergeEnvironment(cfg, name)] returns
    [cfg] itself; the function has no failing outcome. *)
Theorem mergeEnvironment_absent (cfg : ISDLCConfig) (name : string) :
  Forall (λ env, env_name env ≠ name) (default [] (environments cfg)) →
  ConfigMerger.mergeEnvironment cfg name = cfg.
Proof.
  intros Habsent. unfold ConfigMerger.mergeEnvironment.
  destruct (environments cfg) as [envs|]; [|done]. simpl in Habsent.
  replace (find _ envs) with (@None IEnvironmentConfig); [done|].
  symmetry. apply find_None_Forall.
  eapply Forall_impl; [exact Habsent|]. intros env Hne. simpl.
  by apply String.eqb_neq.
Qed.

Lemma mergeEnvironment_absent_witness :
  ConfigMerger.mergeEnvironment Fixtures.devConfig "production" = Fixtures.devConfig
  ∧ ConfigMerger.mergeEnvironment Fixtures.correctConfig "nonexistent"
    = Fixtures.correctConfig.
Proof.
  split.
  - apply (mergeEnvironment_absent Fixtures.devConfig "production").
    repeat constructor. discriminate.
  - apply (mergeEnvironment_absent Fixtures.correctConfig "nonexistent").
    constructor.
Defined.

(** The merger's unit test on an environment that is found: the settings
    of the environment become the workflow's, and the metadata records the
    environment. *)
Example mergeEnvironment_dev :
  let merged := ConfigMerger.mergeEnvironment Fixtures.devConfig "dev" in
  globalSettings <$> workflows merged = [ Some Fixtures.overrideSettings ]
  ∧ (default ∅ (metadata merged)) !! "appliedEnvironment" = Some (JStr "dev")
  ∧ (default ∅ (metadata merged)) !! "environmentVariables" = Some JUndefined.
Proof. by vm_compute. Qed.

(** * Validation *)

Lemma valid_validate vf config :
  valid (ConfigLoader.validate vf config)
  = Nat.eqb (List.length (errors (ConfigLoader.validate vf config))) 0.
Proof. reflexivity. Qed.

Lemma negb_has_resolved (ids : list string) (x : string) :
  x ∈ ids → negb (has (set_of ids) x) = false.
Proof. intros Hx. apply negb_false_iff. by apply has_set_of. Qed.

(** C2 (amended).  For every configuration that the schema accepts and in
    which every [nextPhases] identifier, every endpoint of a transition,
    every [initialPhase] and every task dependency resolves to a sibling,
    [validate] returns [valid = true] and an empty list of errors. *)
Theorem validate_resolved_references
    (validateFunction : ISDLCConfig → AjvOutcome) (config : ISDLCConfig) :
  ajv_valid (validateFunction config) = true →
  referencesResolve config →
  valid (ConfigLoader.validate validateFunction config) = true
  ∧ errors (ConfigLoader.validate validateFunction config) = [].
Proof.
  intros Hschema Hrefs.
  assert (Herrors : errors (ConfigLoader.validate validateFunction config) = []).
  { unfold ConfigLoader.validate. cbn [errors]. rewrite Hschema.
    apply forEach_invariant; [done|].
    intros wIndex w errs Hw ->.
    destruct (Forall_lookup_1 _ _ _ _ Hrefs Hw) as (Hinit & Hphases & Htrans).
    rewrite (negb_has_resolved _ _ Hinit), andb_false_r.
    apply forEach_invariant.
    - (* the phases: their nextPhases, then the dependencies of their tasks *)
      apply forEach_invariant; [done|].
      intros pIndex p errs Hp ->.
      destruct (Forall_lookup_1 _ _ _ _ Hphases Hp) as (Hnext & Htasks).
      apply forEach_invariant.
      + apply forEach_invariant; [done|].
        intros nIndex n errs Hn ->.
        by rewrite (negb_has_resolved _ _ (Forall_lookup_1 _ _ _ _ Hnext Hn)).
      + intros tIndex t errs Ht ->.
        pose proof (Forall_lookup_1 _ _ _ _ Htasks Ht) as Hdeps.
        unfold taskResolved in Hdeps. unfold forEach_opt.
        destruct (dependencies t) as [deps|]; [|done]. simpl in Hdeps.
        apply forEach_invariant; [done|].
        intros dIndex d errs Hd ->.
        by rewrite (negb_has_resolved _ _ (Forall_lookup_1 _ _ _ _ Hdeps Hd)).
    - (* the transitions *)
      intros tIndex t errs Ht ->.
      destruct (Forall_lookup_1 _ _ _ _ Htrans Ht) as (Hfrom & Hto).
      by rewrite (negb_has_resolved _ _ Hfrom), (negb_has_resolved _ _ Hto). }
  split; [|done]. by rewrite valid_validate, Herrors.
Qed.

Lemma validate_resolved_references_witness :
  valid (ConfigLoader.validate Schema.validateFunction Fixtures.testConfig) = true
  ∧ errors (ConfigLoader.validate Schema.validateFunction Fixtures.testConfig) = [].
Proof.
  apply (validate_resolved_references Schema.validateFunction Fixtures.testConfig).
  - reflexivity.
  - vm_compute. repeat constructor.
Defined.

(** C2, as stated, fails: every reference of [shortVersionConfig] resolves,
    and [validate] rejects it, because its version does not match the
    pattern of the schema. *)
Lemma validate_rejects_short_version :
  referencesResolve Fixtures.shortVersionConfig
  ∧ valid (ConfigLoader.validate Schema.validateFunction Fixtures.shortVersionConfig)
    = false
  ∧ err_path <$> errors (ConfigLoader.validate Schema.validateFunction
                           Fixtures.shortVersionConfig)
    = ["/version"].
Proof.
  split_and!; try reflexivity. vm_compute. repeat constructor.
Qed.

Example matchesVersionPattern_examples :
  Schema.matchesVersionPattern "1.0.0" = true
  ∧ Schema.matchesVersionPattern "10.20.30" = true
  ∧ Schema.matchesVersionPattern "1.0" = false
  ∧ Schema.matchesVersionPattern "1.0.0-beta" = false
  ∧ Schema.matchesVersionPattern "v1.0.0" = false.
Proof. by vm_compute. Qed.

(** The loader's unit tests on [validate]. *)
Example validate_correctConfig :
  ConfigLoader.validate Schema.validateFunction Fixtures.correctConfig
  = {| valid := true; errors := []; warnings := [] |}.
Proof. reflexivity. Qed.

Example validate_danglingConfig :
  err_path <$> errors (ConfigLoader.validate Schema.validateFunction
                         Fixtures.danglingConfig)
  = [ "/workflows/0/initialPhase";
      "/workflows/0/phases/0/nextPhases/0";
      "/workflows/0/transitions/0/to" ].
Proof. reflexivity. Qed.

Example validate_danglingDependencyConfig :
  errors (ConfigLoader.validate Schema.validateFunction
            Fixtures.danglingDependencyConfig)
  = [ {| err_path := "/workflows/0/phases/0/tasks/0/dependencies/0";
         err_message := "Task dependency 'nonexistent' not found in phase tasks";
         err_type := err_reference |} ].
Proof. reflexivity. Qed.

Example validate_unusedPhaseConfig :
  ConfigLoader.validate Schema.validateFunction Fixtures.unusedPhaseConfig
  = {| valid := true; errors := [];
       warnings :=
         [ {| warn_path := "/workflows/0/phases/1";
              warn_message :=
                "Phase 'phase2' is not referenced by any transition or phase";
              warn_type := unused |} ] |}.
Proof. reflexivity. Qed.

Lemma push_elem_of {A} (l : list A) (x y : A) : x ∈ l → x ∈ push l y.
Proof. intros Hx. unfold push. apply elem_of_app. by left. Qed.

Lemma push_elem_of_last {A} (l : list A) (y : A) : y ∈ push l y.
Proof. unfold push. apply elem_of_app. right. left. Qed.

Lemma not_elem_of_add (s : gset string) (x y : string) :
  x ∉ s → x ≠ y → x ∉ add s y.
Proof.
  intros Hs Hne. unfold add. intros [Hin|Hin]%elem_of_union; [done|].
  by apply elem_of_singleton in Hin.
Qed.

Lemma has_false (s : gset string) (x : string) : x ∉ s → has s x = false.
Proof. intros Hx. unfold has. by apply bool_decide_eq_false. Qed.

(** C3 (amended).  For a workflow [w] at index [wIdx] and a phase [p] of
    [w] at index [pIdx] such that [p.id] is not [w.initialPhase], is
    neither the [from] nor the [to] of a transition of [w], and is in no
    [nextPhases] list of [w], [validate] emits an [unused] warning at
    [/workflows/{wIdx}/phases/{pIdx}]. *)
Theorem validate_unused_phase
    (validateFunction : ISDLCConfig → AjvOutcome) (config : ISDLCConfig)
    (wIdx pIdx : nat) (w : ISDLCWorkflow) (p : ISDLCPhase) :
  workflows config !! wIdx = Some w →
  phases w !! pIdx = Some p →
  phase_id p ≠ initialPhase w →
  Forall (λ t, from t ≠ phase_id p ∧ to t ≠ phase_id p) (transitions w) →
  Forall (λ q, phase_id p ∉ nextPhases q) (phases w) →
  unusedWarning wIdx pIdx p
  ∈ warnings (ConfigLoader.validate validateFunction config).
Proof.
  intros Hw Hp Hinit Htrans Hnext.
  unfold ConfigLoader.validate. cbn [warnings].
  match goal with
  | |- _ ∈ match ?md with Some _ => _ | None => ?ws end =>
      assert (Hws : unusedWarning wIdx pIdx p ∈ ws);
      [|destruct md as [md'|]; [|done]; case_bool_decide; [|done];
        by apply push_elem_of]
  end.
  apply (forEach_reach _ _ _ _ wIdx w Hw).
  - (* at [w], the loop over its phases reaches [p] *)
    intros warns.
    apply (forEach_reach _ _ _ _ pIdx p Hp).
    + (* [p.id] is not in [referencedPhases] *)
      intros warns'. rewrite has_false; [apply push_elem_of_last|].
      apply forEach_invariant.
      * apply forEach_invariant.
        -- destruct (truthy (initialPhase w)); [|apply not_elem_of_empty].
           apply not_elem_of_add; [apply not_elem_of_empty|done].
        -- intros k t s Ht Hs.
           destruct (Forall_lookup_1 _ _ _ _ Htrans Ht) as [Hfrom Hto].
           apply not_elem_of_add; [apply not_elem_of_add|]; done.
      * intros k q s Hq Hs.
        pose proof (Forall_lookup_1 _ _ _ _ Hnext Hq) as Hq'.
        apply forEach_invariant; [done|].
        intros j np s' Hnp Hs'. apply list_elem_of_lookup_2 in Hnp.
        apply not_elem_of_add; [done|]. by intros <-.
    + intros j q warns' _ Hin. destruct (negb _); [by apply push_elem_of|done].
  - (* no later step removes a warning *)
    intros j w' warns _ Hin.
    apply forEach_invariant; [done|].
    intros k q warns' _ Hin'. destruct (negb _); [by apply push_elem_of|done].
Qed.

Lemma validate_unused_phase_witness :
  unusedWarning 0 1 (Fixtures.phase "phase2" ["Test"] [] [])
  ∈ warnings (ConfigLoader.validate Schema.validateFunction Fixtures.unusedPhaseConfig).
Proof.
  apply (validate_unused_phase Schema.validateFunction Fixtures.unusedPhaseConfig 0 1
           (Fixtures.workflow "test" "phase1"
              [ Fixtures.phase "phase1" ["Test"] [] [];
                Fixtures.phase "phase2" ["Test"] [] [] ] [])).
  - reflexivity.
  - reflexivity.
  - discriminate.
  - constructor.
  - repeat constructor; apply not_elem_of_nil.
Defined.

(** C3, as stated, fails: [p2] is not the initial phase, is the target of
    no transition and is in no [nextPhases] list, but it is the source of a
    transition, and [validate] emits no warning for it. *)
Lemma validate_source_only_phase_not_flagged :
  let w := Fixtures.workflow "wf" "p1"
             [ Fixtures.phase "p1" ["done"] [] []; Fixtures.phase "p2" ["done"] [] [] ]
             [ Fixtures.transition "p2" "p1" [] ] in
  let p := Fixtures.phase "p2" ["done"] [] [] in
  workflows Fixtures.sourceOnlyConfig !! 0 = Some w
  ∧ phases w !! 1 = Some p
  ∧ phase_id p ≠ initialPhase w
  ∧ Forall (λ t, to t ≠ phase_id p) (transitions w)
  ∧ Forall (λ q, phase_id p ∉ nextPhases q) (phases w)
  ∧ warnings (ConfigLoader.validate Schema.validateFunction Fixtures.sourceOnlyConfig)
    = []
  ∧ ¬ ∃ warning,
        warning ∈ warnings (ConfigLoader.validate Schema.validateFunction
                              Fixtures.sourceOnlyConfig)
        ∧ warn_type warning = unused
        ∧ warn_path warning = "/workflows/0/phases/1".
Proof.
  split_and!; try reflexivity.
  - discriminate.
  - repeat constructor. discriminate.
  - repeat constructor; apply not_elem_of_nil.
  - intros (warning & Hin & _). vm_compute in Hin. by apply elem_of_nil in Hin.
Qed.

(** * Loading *)

Lemma append_nonempty_l (a b : string) : a ≠ EmptyString → (a ++ b) ≠ EmptyString.
Proof. by destruct a. Qed.

Lemma join_nonempty (sep : string) (l : list string) :
  l ≠ [] → Forall (λ x, x ≠ EmptyString) l → join sep l ≠ EmptyString.
Proof.
  intros Hl Hall. destruct l as [|x l]; [done|].
  apply Forall_cons in Hall as [Hx _]. unfold join. simpl.
  destruct l; [done|]. by apply append_nonempty_l.
Qed.

Lemma error_line_nonempty (e : IValidationError) :
  (err_path e ++ ": " ++ err_message e) ≠ EmptyString.
Proof. by destruct (err_path e). Qed.

(** C9.  When a text parses to a configuration that the schema accepts and
    for which [validate] collects at least one error, [loadFromString]
    rejects with an error whose message is ["Invalid configuration: "]
    followed by the lines ["{path}: {message}"] of all the collected
    errors, in order, joined by [", "]. *)
Theorem loadFromString_reports_all_errors
    (yaml_load : string → YamlOutcome)
    (validateFunction : ISDLCConfig → AjvOutcome)
    (content : string) (config : ISDLCConfig) :
  yaml_load content = YamlParsed config →
  ajv_valid (validateFunction config) = true →
  errors (ConfigLoader.validate validateFunction config) ≠ [] →
  ConfigLoader.loadFromString yaml_load validateFunction content
  = Rejected
      ("Invalid configuration: "
       ++ join ", " ((λ e, err_path e ++ ": " ++ err_message e)
                     <$> errors (ConfigLoader.validate validateFunction config))).
Proof.
  intros Hparse _ Herrors. unfold ConfigLoader.loadFromString.
  rewrite Hparse, valid_validate.
  destruct (errors (ConfigLoader.validate validateFunction config))
    as [|e es] eqn:Hes; [done|].
  cbn [List.length Nat.eqb negb]. do 2 f_equal.
  unfold str_or.
  destruct (truthy _) eqn:Htruthy; [done|]. exfalso.
  apply not_true_iff_false in Htruthy. apply Htruthy, truthy_nonempty.
  apply join_nonempty; [done|].
  apply Forall_fmap, Forall_forall. intros x _. apply error_line_nonempty.
Qed.

Lemma loadFromString_reports_all_errors_witness :
  ConfigLoader.loadFromString (Fixtures.parsesTo Fixtures.danglingConfig)
    Schema.validateFunction "workflows: ..."
  = Rejected
      ("Invalid configuration: "
       ++ "/workflows/0/initialPhase: "
       ++ "Initial phase 'nonexistent' not found in workflow phases, "
       ++ "/workflows/0/phases/0/nextPhases/0: "
       ++ "Next phase 'nonexistent2' not found in workflow phases, "
       ++ "/workflows/0/transitions/0/to: "
       ++ "Transition target phase 'nonexistent3' not found").
Proof.
  apply (loadFromString_reports_all_errors (Fixtures.parsesTo Fixtures.danglingConfig)
           Schema.validateFunction "workflows: ..." Fixtures.danglingConfig).
  - reflexivity.
  - reflexivity.
  - discriminate.
Defined.

(** The other outcomes of the loader: a text that does not parse, and a
    text whose configuration validates. *)
Example loadFromString_yaml_exception :
  ConfigLoader.loadFromString (λ _, YamlException "bad indentation")
    Schema.validateFunction "workflows: ..."
  = Rejected "Invalid YAML syntax: bad indentation".
Proof. reflexivity. Qed.

Example loadFromString_resolves :
  ConfigLoader.loadFromString (Fixtures.parsesTo Fixtures.testConfig)
    Schema.validateFunction "workflows: ..."
  = Resolved Fixtures.testConfig.
Proof. reflexivity. Qed.

(** * Further properties of validation *)

(** The loops of [validate] only push: what is in the list stays in it. *)
Ltac keeps_member :=
  repeat first
    [ assumption
    | apply push_elem_of_last
    | apply push_elem_of
    | apply forEach_invariant; [|intros ? ? ? _ ?]
    | progress unfold forEach_opt
    | match goal with
      | |- _ ∈ (if ?c then _ else _) => destruct c
      | |- _ ∈ (match ?d with Some _ => _ | None => _ end) => destruct d
      end ].

Lemma negb_has_dangling (ids : list string) (x : string) :
  x ∉ ids → negb (has (set_of ids) x) = true.
Proof. intros Hx. apply negb_true_iff. by apply has_set_of_false. Qed.

Lemma valid_false_of_error vf config e :
  e ∈ errors (ConfigLoader.validate vf config) →
  valid (ConfigLoader.validate vf config) = false.
Proof.
  rewrite valid_validate.
  destruct (errors (ConfigLoader.validate vf config)); [|done].
  intros []%elem_of_nil.
Qed.

Lemma validate_reports_initialPhase vf config wIdx w :
  workflows config !! wIdx = Some w →
  initialPhase w ≠ EmptyString →
  initialPhase w ∉ phase_id <$> phases w →
  initialPhaseError wIdx (initialPhase w) ∈ errors (ConfigLoader.validate vf config).
Proof.
  intros Hw Hne Hdangling. unfold ConfigLoader.validate. cbn [errors].
  apply (forEach_reach _ _ _ _ wIdx w Hw).
  - intros errs. cbv zeta.
    rewrite (negb_has_dangling _ _ Hdangling), (proj2 (truthy_nonempty _) Hne).
    cbn [andb]. keeps_member.
  - intros. cbv zeta. keeps_member.
Qed.

Lemma validate_reports_nextPhase vf config wIdx w pIdx p nIdx n :
  workflows config !! wIdx = Some w →
  phases w !! pIdx = Some p →
  nextPhases p !! nIdx = Some n →
  n ∉ phase_id <$> phases w →
  nextPhaseError wIdx pIdx nIdx n ∈ errors (ConfigLoader.validate vf config).
Proof.
  intros Hw Hp Hn Hdangling. unfold ConfigLoader.validate. cbn [errors].
  apply (forEach_reach _ _ _ _ wIdx w Hw).
  - intros errs. cbv zeta.
    apply forEach_invariant; [|intros; keeps_member].
    apply (forEach_reach _ _ _ _ pIdx p Hp).
    + intros errs'. cbv zeta.
      apply forEach_invariant; [|intros; keeps_member].
      apply (forEach_reach _ _ _ _ nIdx n Hn).
      * intros errs''. rewrite (negb_has_dangling _ _ Hdangling).
        apply push_elem_of_last.
      * intros. keeps_member.
    + intros. cbv zeta. keeps_member.
  - intros. cbv zeta. keeps_member.
Qed.

Lemma validate_reports_dependency vf config wIdx w pIdx p tIdx t deps dIdx d :
  workflows config !! wIdx = Some w →
  phases w !! pIdx = Some p →
  tasks p !! tIdx = Some t →
  dependencies t = Some deps →
  deps !! dIdx = Some d →
  d ∉ task_id <$> tasks p →
  dependencyError wIdx pIdx tIdx dIdx d ∈ errors (ConfigLoader.validate vf config).
Proof.
  intros Hw Hp Ht Hdeps Hd Hdangling. unfold ConfigLoader.validate. cbn [errors].
  apply (forEach_reach _ _ _ _ wIdx w Hw).
  - intros errs. cbv zeta.
    apply forEach_invariant; [|intros; keeps_member].
    apply (forEach_reach _ _ _ _ pIdx p Hp).
    + intros errs'. cbv zeta.
      apply (forEach_reach _ _ _ _ tIdx t Ht).
      * intros errs''. rewrite Hdeps. unfold forEach_opt.
        apply (forEach_reach _ _ _ _ dIdx d Hd).
        -- intros errs3. rewrite (negb_has_dangling _ _ Hdangling).
           apply push_elem_of_last.
        -- intros. keeps_member.
      * intros. keeps_member.
    + intros. cbv zeta. keeps_member.
  - intros. cbv zeta. keeps_member.
Qed.

Lemma validate_reports_transition_from vf config wIdx w tIdx t :
  workflows config !! wIdx = Some w →
  transitions w !! tIdx = Some t →
  from t ∉ phase_id <$> phases w →
  transitionFromError wIdx tIdx (from t) ∈ errors (ConfigLoader.validate vf config).
Proof.
  intros Hw Ht Hdangling. unfold ConfigLoader.validate. cbn [errors].
  apply (forEach_reach _ _ _ _ wIdx w Hw).
  - intros errs. cbv zeta.
    apply (forEach_reach _ _ _ _ tIdx t Ht).
    + intros errs'. cbv zeta. rewrite (negb_has_dangling _ _ Hdangling).
      keeps_member.
    + intros. cbv zeta. keeps_member.
  - intros. cbv zeta. keeps_member.
Qed.

Lemma validate_reports_transition_to vf config wIdx w tIdx t :
  workflows config !! wIdx = Some w →
  transitions w !! tIdx = Some t →
  to t ∉ phase_id <$> phases w →
  transitionToError wIdx tIdx (to t) ∈ errors (ConfigLoader.validate vf config).
Proof.
  intros Hw Ht Hdangling. unfold ConfigLoader.validate. cbn [errors].
  apply (forEach_reach _ _ _ _ wIdx w Hw).
  - intros errs. cbv zeta.
    apply (forEach_reach _ _ _ _ tIdx t Ht).
    + intros errs'. cbv zeta. rewrite (negb_has_dangling _ _ Hdangling).
      apply push_elem_of_last.
    + intros. cbv zeta. keeps_member.
  - intros. cbv zeta. keeps_member.
Qed.

(** A loop that pushes one value for each element. *)
Lemma forEach_from_push_all {A B} (g : A → B) (l : list A) (i : nat) (acc : list B) :
  forEach_from i l (λ a _ acc, push acc (g a)) acc = (acc ++ (g <$> l))%list.
Proof.
  revert i acc. induction l as [|a l IH]; intros i acc; csimpl.
  - by rewrite app_nil_r.
  - rewrite IH. unfold push. by rewrite <- app_assoc.
Qed.

Lemma push_prefix {A} (pre l : list A) (x : A) :
  pre `prefix_of` l → pre `prefix_of` push l x.
Proof. intros [k ->]. exists (k ++ [x])%list. unfold push. by rewrite app_assoc. Qed.

Lemma push_Forall {A} (P : A → Prop) (l : list A) (x : A) :
  Forall P l → P x → Forall P (push l x).
Proof. intros Hl Hx. unfold push. apply Forall_app. by repeat constructor. Qed.

(** The loops of [validate] keep a property that [push] keeps. *)
Ltac loop_keeps push_tac :=
  repeat first
    [ assumption
    | push_tac
    | apply forEach_invariant; [|intros ? ? ? _ ?]
    | progress unfold forEach_opt
    | match goal with
      | |- context [if ?c then _ else _] => destruct c
      | |- context [match ?d with Some _ => _ | None => _ end] => destruct d
      end ].

Lemma validate_schema_errors vf config :
  ∃ start,
    start = invalidError <$> schemaErrorsOf (vf config)
    ∧ start `prefix_of` errors (ConfigLoader.validate vf config).
Proof.
  eexists. split; [reflexivity|].
  unfold ConfigLoader.validate. cbn [errors].
  apply forEach_invariant.
  - unfold schemaErrorsOf.
    destruct (ajv_valid (vf config)); [by exists []|].
    destruct (ajv_errors (vf config)) as [es|]; [|by exists []].
    unfold forEach.
    change (invalidError <$> es
            `prefix_of` forEach_from 0 es
                          (λ a (_ : nat) acc, push acc (invalidError a)) []).
    rewrite (forEach_from_push_all invalidError). simpl. reflexivity.
  - intros wIndex w errs _ Hpre. cbv zeta.
    loop_keeps ltac:(apply push_prefix).
Qed.

Lemma validate_errors_nil vf config :
  schemaErrorsOf (vf config) = [] →
  referencesIntact config →
  errors (ConfigLoader.validate vf config) = [].
Proof.
  intros Hschema Hrefs. unfold ConfigLoader.validate. cbn [errors].
  apply forEach_invariant.
  - unfold schemaErrorsOf in Hschema.
    destruct (ajv_valid (vf config)); [done|].
    destruct (ajv_errors (vf config)) as [es|]; [|done]. by subst es.
  - intros wIndex w errs Hw ->.
    destruct (Forall_lookup_1 _ _ _ _ Hrefs Hw) as (Hinit & Hphases & Htrans).
    assert (Hcheck : truthy (initialPhase w)
                     && negb (has (set_of (phase_id <$> phases w)) (initialPhase w))
                     = false).
    { destruct Hinit as [-> | Hinit]; [done|].
      by rewrite (negb_has_resolved _ _ Hinit), andb_false_r. }
    rewrite Hcheck.
    apply forEach_invariant.
    + apply forEach_invariant; [done|].
      intros pIndex p errs Hp ->.
      destruct (Forall_lookup_1 _ _ _ _ Hphases Hp) as (Hnext & Htasks).
      apply forEach_invariant.
      * apply forEach_invariant; [done|].
        intros nIndex n errs Hn ->.
        by rewrite (negb_has_resolved _ _ (Forall_lookup_1 _ _ _ _ Hnext Hn)).
      * intros tIndex t errs Ht ->.
        pose proof (Forall_lookup_1 _ _ _ _ Htasks Ht) as Hdeps.
        unfold taskResolved in Hdeps. unfold forEach_opt.
        destruct (dependencies t) as [deps|]; [|done]. simpl in Hdeps.
        apply forEach_invariant; [done|].
        intros dIndex d errs Hd ->.
        by rewrite (negb_has_resolved _ _ (Forall_lookup_1 _ _ _ _ Hdeps Hd)).
    + intros tIndex t errs Ht ->.
      destruct (Forall_lookup_1 _ _ _ _ Htrans Ht) as (Hfrom & Hto).
      by rewrite (negb_has_resolved _ _ Hfrom), (negb_has_resolved _ _ Hto).
Qed.

Lemma validate_errors_nil_intact vf config :
  errors (ConfigLoader.validate vf config) = [] → referencesIntact config.
Proof.
  intros Hnil. apply Forall_lookup. intros wIdx w Hw.
  assert (Hno : ∀ e, e ∉ errors (ConfigLoader.validate vf config)).
  { intros e. rewrite Hnil. apply not_elem_of_nil. }
  split_and!.
  - destruct (decide (initialPhase w = EmptyString)) as [|Hne]; [by left|right].
    destruct (decide (initialPhase w ∈ phase_id <$> phases w)) as [|Hd]; [done|].
    by destruct (Hno _ (validate_reports_initialPhase vf _ _ _ Hw Hne Hd)).
  - apply Forall_lookup. intros pIdx p Hp. split.
    + apply Forall_lookup. intros nIdx n Hn.
      destruct (decide (n ∈ phase_id <$> phases w)) as [|Hd]; [done|].
      by destruct (Hno _ (validate_reports_nextPhase vf _ _ _ _ _ _ _ Hw Hp Hn Hd)).
    + apply Forall_lookup. intros tIdx t Ht. unfold taskResolved.
      destruct (dependencies t) as [deps|] eqn:Hdeps; [|constructor]. simpl.
      apply Forall_lookup. intros dIdx d Hd.
      destruct (decide (d ∈ task_id <$> tasks p)) as [|Hdangling]; [done|].
      by destruct (Hno _ (validate_reports_dependency vf _ _ _ _ _ _ _ _ _ _
                            Hw Hp Ht Hdeps Hd Hdangling)).
  - apply Forall_lookup. intros tIdx t Ht. split.
    + destruct (decide (from t ∈ phase_id <$> phases w)) as [|Hd]; [done|].
      by destruct (Hno _ (validate_reports_transition_from vf _ _ _ _ _ Hw Ht Hd)).
    + destruct (decide (to t ∈ phase_id <$> phases w)) as [|Hd]; [done|].
      by destruct (Hno _ (validate_reports_transition_to vf _ _ _ _ _ Hw Ht Hd)).
Qed.

Lemma referencesResolve_intact config :
  referencesResolve config → referencesIntact config.
Proof.
  intros Hresolved. eapply Forall_impl; [exact Hresolved|].
  intros w (Hinit & Hphases & Htrans). split_and!; [by right|done|done].
Qed.

Lemma validate_valid_characterised vf config :
  valid (ConfigLoader.validate vf config) = true
  ↔ schemaErrorsOf (vf config) = [] ∧ referencesIntact config.
Proof.
  rewrite valid_validate. split.
  - intros Hvalid.
    assert (Hnil : errors (ConfigLoader.validate vf config) = []).
    { by destruct (errors (ConfigLoader.validate vf config)). }
    split; [|by apply (validate_errors_nil_intact vf)].
    destruct (validate_schema_errors vf config) as (start & -> & Hpre).
    rewrite Hnil in Hpre. apply prefix_nil_inv in Hpre.
    by apply fmap_nil_inv in Hpre.
  - intros [Hschema Hrefs]. by rewrite validate_errors_nil.
Qed.

(** X1.  [validate] answers [valid: true] exactly when the schema
    validator supplied no error and every reference that [validate] looks
    up resolves: each [nextPhases] identifier, each endpoint of a
    transition and each non-empty [initialPhase] names a phase of its
    workflow, and each task dependency names a task of its phase. *)
Theorem validate_valid_iff
    (validateFunction : ISDLCConfig → AjvOutcome) (config : ISDLCConfig) :
  valid (ConfigLoader.validate validateFunction config) = true
  ↔ schemaErrorsOf (validateFunction config) = [] ∧ referencesIntact config.
Proof. apply validate_valid_characterised. Qed.

(** X2.  A task dependency that names no task of the same phase is
    reported: [validate] returns [valid: false] and its errors contain a
    [reference] error at
    [/workflows/{w}/phases/{p}/tasks/{t}/dependencies/{d}] whose message
    contains "Task dependency". *)
Theorem validate_dangling_dependency
    (validateFunction : ISDLCConfig → AjvOutcome) (config : ISDLCConfig)
    (wIdx pIdx tIdx dIdx : nat) (w : ISDLCWorkflow) (p : ISDLCPhase)
    (t : ISDLCTask) (deps : list string) (d : string) :
  workflows config !! wIdx = Some w →
  phases w !! pIdx = Some p →
  tasks p !! tIdx = Some t →
  dependencies t = Some deps →
  deps !! dIdx = Some d →
  d ∉ task_id <$> tasks p →
  dependencyError wIdx pIdx tIdx dIdx d
    ∈ errors (ConfigLoader.validate validateFunction config)
  ∧ valid (ConfigLoader.validate validateFunction config) = false
  ∧ includes "Task dependency" (err_message (dependencyError wIdx pIdx tIdx dIdx d))
    = true.
Proof.
  intros Hw Hp Ht Hdeps Hd Hdangling.
  pose proof (validate_reports_dependency validateFunction _ _ _ _ _ _ _ _ _ _
                Hw Hp Ht Hdeps Hd Hdangling) as Hin.
  split_and!; [done|by eapply valid_false_of_error|done].
Qed.

Lemma validate_dangling_dependency_witness :
  dependencyError 0 0 0 0 "nonexistent"
    ∈ errors (ConfigLoader.validate Schema.validateFunction
                Fixtures.danglingDependencyConfig)
  ∧ valid (ConfigLoader.validate Schema.validateFunction
             Fixtures.danglingDependencyConfig) = false
  ∧ includes "Task dependency"
      (err_message (dependencyError 0 0 0 0 "nonexistent")) = true.
Proof.
  apply (validate_dangling_dependency Schema.validateFunction
           Fixtures.danglingDependencyConfig 0 0 0 0
           (Fixtures.workflow "test" "phase1"
              [ Fixtures.phase "phase1" ["Test"]
                  [ Fixtures.task "task1" true (Some ["nonexistent"]) ] [] ] [])
           (Fixtures.phase "phase1" ["Test"]
              [ Fixtures.task "task1" true (Some ["nonexistent"]) ] [])
           (Fixtures.task "task1" true (Some ["nonexistent"]))
           ["nonexistent"] "nonexistent"); try reflexivity.
  vm_compute. intros Hin. apply list_elem_of_singleton in Hin. discriminate.
Defined.

(** X3.  A [nextPhases] entry that names no phase of the workflow is
    reported: [validate] returns [valid: false] and its errors contain a
    [reference] error at [/workflows/{w}/phases/{p}/nextPhases/{n}]. *)
Theorem validate_dangling_nextPhase
    (validateFunction : ISDLCConfig → AjvOutcome) (config : ISDLCConfig)
    (wIdx pIdx nIdx : nat) (w : ISDLCWorkflow) (p : ISDLCPhase) (n : string) :
  workflows config !! wIdx = Some w →
  phases w !! pIdx = Some p →
  nextPhases p !! nIdx = Some n →
  n ∉ phase_id <$> phases w →
  nextPhaseError wIdx pIdx nIdx n
    ∈ errors (ConfigLoader.validate validateFunction config)
  ∧ valid (ConfigLoader.validate validateFunction config) = false.
Proof.
  intros Hw Hp Hn Hdangling.
  pose proof (validate_reports_nextPhase validateFunction _ _ _ _ _ _ _
                Hw Hp Hn Hdangling) as Hin.
  split; [done|by eapply valid_false_of_error].
Qed.

Lemma validate_dangling_nextPhase_witness :
  nextPhaseError 0 0 0 "nonexistent2"
    ∈ errors (ConfigLoader.validate Schema.validateFunction Fixtures.danglingConfig)
  ∧ valid (ConfigLoader.validate Schema.validateFunction Fixtures.danglingConfig)
    = false.
Proof.
  apply (validate_dangling_nextPhase Schema.validateFunction Fixtures.danglingConfig
           0 0 0
           (Fixtures.workflow "test" "nonexistent"
              [ Fixtures.phase "phase1" ["Test"] [] ["nonexistent2"] ]
              [ Fixtures.transition "phase1" "nonexistent3" [] ])
           (Fixtures.phase "phase1" ["Test"] [] ["nonexistent2"])
           "nonexistent2"); try reflexivity.
  vm_compute. intros Hin. apply list_elem_of_singleton in Hin. discriminate.
Defined.

(** X4.  An endpoint of a transition that names no phase of the workflow
    is reported, the source at [/workflows/{w}/transitions/{t}/from] and
    the target at [/workflows/{w}/transitions/{t}/to]; a non-empty
    [initialPhase] that names no phase is reported at
    [/workflows/{w}/initialPhase]. *)
Theorem validate_dangling_endpoints
    (validateFunction : ISDLCConfig → AjvOutcome) (config : ISDLCConfig)
    (wIdx : nat) (w : ISDLCWorkflow) :
  workflows config !! wIdx = Some w →
  (∀ tIdx t, transitions w !! tIdx = Some t →
     (from t ∉ phase_id <$> phases w →
      transitionFromError wIdx tIdx (from t)
        ∈ errors (ConfigLoader.validate validateFunction config))
     ∧ (to t ∉ phase_id <$> phases w →
        transitionToError wIdx tIdx (to t)
          ∈ errors (ConfigLoader.validate validateFunction config)))
  ∧ (initialPhase w ≠ EmptyString → initialPhase w ∉ phase_id <$> phases w →
     initialPhaseError wIdx (initialPhase w)
       ∈ errors (ConfigLoader.validate validateFunction config)).
Proof.
  intros Hw. split.
  - intros tIdx t Ht. split; intros Hdangling.
    + exact (validate_reports_transition_from validateFunction _ _ _ _ _
               Hw Ht Hdangling).
    + exact (validate_reports_transition_to validateFunction _ _ _ _ _
               Hw Ht Hdangling).
  - intros Hne Hdangling.
    exact (validate_reports_initialPhase validateFunction _ _ _ Hw Hne Hdangling).
Qed.

Lemma validate_dangling_endpoints_witness :
  transitionToError 0 0 "nonexistent3"
    ∈ errors (ConfigLoader.validate Schema.validateFunction Fixtures.danglingConfig)
  ∧ initialPhaseError 0 "nonexistent"
      ∈ errors (ConfigLoader.validate Schema.validateFunction Fixtures.danglingConfig).
Proof.
  destruct (validate_dangling_endpoints Schema.validateFunction Fixtures.danglingConfig 0
              (Fixtures.workflow "test" "nonexistent"
                 [ Fixtures.phase "phase1" ["Test"] [] ["nonexistent2"] ]
                 [ Fixtures.transition "phase1" "nonexistent3" [] ]) eq_refl)
    as [Htrans Hinit].
  split.
  - apply (Htrans 0 (Fixtures.transition "phase1" "nonexistent3" []) eq_refl).
    vm_compute. intros Hin. apply list_elem_of_singleton in Hin. discriminate.
  - apply Hinit; [discriminate|].
    vm_compute. intros Hin. apply list_elem_of_singleton in Hin. discriminate.
Defined.

Lemma push_split {A} (P : A → Prop) (start l : list A) (x : A) :
  (∃ rest, l = (start ++ rest)%list ∧ Forall P rest) → P x →
  ∃ rest, push l x = (start ++ rest)%list ∧ Forall P rest.
Proof.
  intros (rest & -> & Hrest) Hx. exists (rest ++ [x])%list. unfold push. split.
  - by rewrite app_assoc.
  - apply Forall_app. by repeat constructor.
Qed.

(** X5.  The errors of [validate] are the violations reported by the
    schema validator, in its order and with type [invalid] (an empty path
    becoming [/]), followed by errors of type [reference] only. *)
Theorem validate_errors_layout
    (validateFunction : ISDLCConfig → AjvOutcome) (config : ISDLCConfig) :
  ∃ rest,
    errors (ConfigLoader.validate validateFunction config)
    = ((invalidError <$> schemaErrorsOf (validateFunction config)) ++ rest)%list
    ∧ Forall (λ e, err_type e = err_reference) rest.
Proof.
  unfold ConfigLoader.validate. cbn [errors].
  apply forEach_invariant.
  - exists []. split; [|constructor]. rewrite app_nil_r. unfold schemaErrorsOf.
    destruct (ajv_valid (validateFunction config)); [done|].
    destruct (ajv_errors (validateFunction config)) as [es|]; [|done].
    unfold forEach.
    change (forEach_from 0 es (λ a (_ : nat) acc, push acc (invalidError a)) []
            = invalidError <$> es).
    by rewrite (forEach_from_push_all invalidError).
  - intros wIndex w errs _ Hsplit. cbv zeta.
    loop_keeps ltac:(apply push_split; [|reflexivity]).
Qed.

Lemma elem_of_add (s : gset string) (x y : string) : x ∈ add s y ↔ x ∈ s ∨ x = y.
Proof. unfold add. by rewrite elem_of_union, elem_of_singleton. Qed.

Lemma forEach_from_add_all (l : list string) (i : nat) (s : gset string) (x : string) :
  x ∈ forEach_from i l (λ np _ referenced, add referenced np) s ↔ x ∈ s ∨ x ∈ l.
Proof.
  revert i s. induction l as [|a l IH]; intros i s; csimpl.
  - rewrite elem_of_nil. tauto.
  - rewrite IH, elem_of_add, elem_of_cons. tauto.
Qed.

Lemma forEach_from_add_endpoints (l : list ISDLCTransition) (i : nat)
    (s : gset string) (x : string) :
  x ∈ forEach_from i l (λ t _ referenced, add (add referenced (from t)) (to t)) s
  ↔ x ∈ s ∨ Exists (λ t, from t = x ∨ to t = x) l.
Proof.
  revert i s. induction l as [|a l IH]; intros i s; csimpl.
  - rewrite Exists_nil. tauto.
  - rewrite IH, !elem_of_add, Exists_cons. intuition congruence.
Qed.

Lemma forEach_from_add_nextPhases (l : list ISDLCPhase) (i : nat)
    (s : gset string) (x : string) :
  x ∈ forEach_from i l
        (λ p _ referenced,
           forEach (nextPhases p) (λ np _ referenced, add referenced np) referenced) s
  ↔ x ∈ s ∨ Exists (λ q, x ∈ nextPhases q) l.
Proof.
  revert i s. induction l as [|a l IH]; intros i s; csimpl.
  - rewrite Exists_nil. tauto.
  - rewrite IH. unfold forEach. rewrite forEach_from_add_all, Exists_cons. tauto.
Qed.

(** What the reachability pass of [validate] collects for a workflow: a
    phase identifier is outside the collected set exactly when the phase is
    [unreferenced]. *)
Lemma referencedPhases_unreferenced (w : ISDLCWorkflow) (p : ISDLCPhase) :
  phase_id p
  ∉ forEach (phases w)
      (λ q _ referenced,
         forEach (nextPhases q) (λ np _ referenced, add referenced np) referenced)
      (forEach (transitions w)
         (λ t _ referenced, add (add referenced (from t)) (to t))
         (if truthy (initialPhase w) then add ∅ (initialPhase w) else ∅))
  ↔ unreferenced w p.
Proof.
  unfold forEach, unreferenced.
  rewrite forEach_from_add_nextPhases, forEach_from_add_endpoints.
  assert (Hinit : phase_id p ∈ (if truthy (initialPhase w)
                                then add ∅ (initialPhase w) else ∅ : gset string)
                  ↔ initialPhase w ≠ EmptyString ∧ phase_id p = initialPhase w).
  { destruct (initialPhase w) as [|c rest] eqn:Hi; simpl.
    - rewrite elem_of_empty. split; [done|]. by intros [? _].
    - rewrite elem_of_add, elem_of_empty. split; [by intros [[]| ->]|].
      intros [_ ->]. by right. }
  rewrite Hinit.
  assert (Hdec : initialPhase w = EmptyString ∨ initialPhase w ≠ EmptyString).
  { destruct (initialPhase w); [by left|by right]. }
  split.
  - intros Hnot. split_and!.
    + destruct Hdec as [|Hne]; [by left|right].
      intros Heq. apply Hnot. left. by left.
    + apply Forall_forall. intros t Ht. split; intros Heq; apply Hnot; left; right;
        apply Exists_exists; exists t; auto.
    + apply Forall_forall. intros q Hq Hin. apply Hnot. right.
      apply Exists_exists. by exists q.
  - intros (Hinit' & Htrans & Hnext) [[[Hne Heq]|Hex]|Hex].
    + by destruct Hinit'.
    + apply Exists_exists in Hex as (t & Ht & Hor).
      destruct (proj1 (Forall_forall _ _) Htrans t Ht) as [Hf Ht'].
      by destruct Hor.
    + apply Exists_exists in Hex as (q & Hq & Hin).
      by apply (proj1 (Forall_forall _ _) Hnext q Hq).
Qed.

(** X6.  Every warning of [validate] is either the deprecation warning or
    the [unused] warning of a phase, at the path of its indices, that
    nothing refers to: the phase is not the non-empty [initialPhase], is
    neither source nor target of a transition, and is in no [nextPhases]
    list of its workflow. *)
Theorem validate_warnings_sound
    (validateFunction : ISDLCConfig → AjvOutcome) (config : ISDLCConfig)
    (warning : IValidationWarning) :
  warning ∈ warnings (ConfigLoader.validate validateFunction config) →
  warning = deprecatedWarning
  ∨ ∃ wIdx w pIdx p,
      workflows config !! wIdx = Some w
      ∧ phases w !! pIdx = Some p
      ∧ warning = unusedWarning wIdx pIdx p
      ∧ unreferenced w p.
Proof.
  unfold ConfigLoader.validate. cbn [warnings].
  set (sound := λ wn : IValidationWarning,
         wn = deprecatedWarning
         ∨ ∃ wIdx w pIdx p,
             workflows config !! wIdx = Some w ∧ phases w !! pIdx = Some p
             ∧ wn = unusedWarning wIdx pIdx p ∧ unreferenced w p).
  intros Hin. revert warning Hin. apply Forall_forall.
  match goal with
  | |- Forall _ (match ?md with Some _ => _ | None => ?ws end) =>
      assert (Hws : Forall sound ws);
      [|destruct md as [md'|]; [|done]; case_bool_decide; [|done];
        apply push_Forall; [done|by left]]
  end.
  apply forEach_invariant; [constructor|].
  intros wIdx w warns Hw Hwarns. cbv zeta.
  apply forEach_invariant; [done|].
  intros pIdx p warns' Hp Hwarns'.
  destruct (negb _) eqn:Hflag; [|done].
  apply push_Forall; [done|]. right. exists wIdx, w, pIdx, p.
  split_and!; try done.
  apply referencedPhases_unreferenced.
  apply negb_true_iff in Hflag. unfold has in Hflag.
  by apply bool_decide_eq_false in Hflag.
Qed.

Lemma validate_warnings_sound_witness :
  unusedWarning 0 1 (Fixtures.phase "phase2" ["Test"] [] []) = deprecatedWarning
  ∨ ∃ wIdx w pIdx p,
      workflows Fixtures.unusedPhaseConfig !! wIdx = Some w
      ∧ phases w !! pIdx = Some p
      ∧ unusedWarning 0 1 (Fixtures.phase "phase2" ["Test"] [] [])
        = unusedWarning wIdx pIdx p
      ∧ unreferenced w p.
Proof.
  apply (validate_warnings_sound Schema.validateFunction Fixtures.unusedPhaseConfig).
  vm_compute. left.
Defined.

(** X7.  [validate] emits the deprecation warning, at
    [/metadata/legacyMode], exactly when the [metadata] of the
    configuration has a [legacyMode] key, whatever its value; the warning
    does not change [valid]. *)
Theorem validate_deprecated_iff
    (validateFunction : ISDLCConfig → AjvOutcome) (config : ISDLCConfig) :
  deprecatedWarning ∈ warnings (ConfigLoader.validate validateFunction config)
  ↔ usesLegacyMode config.
Proof.
  unfold ConfigLoader.validate, usesLegacyMode. cbn [warnings].
  match goal with
  | |- _ ∈ (match ?md with Some _ => _ | None => ?ws end) ↔ _ =>
      assert (Hws : Forall (λ wn, warn_type wn = unused) ws)
  end.
  { apply forEach_invariant; [constructor|].
    intros wIdx w warns _ Hwarns. cbv zeta.
    loop_keeps ltac:(apply push_Forall; [|reflexivity]). }
  assert (Hnot : ∀ ws, Forall (λ wn, warn_type wn = unused) ws → deprecatedWarning ∉ ws).
  { intros ws Hall Hin. by pose proof (proj1 (Forall_forall _ _) Hall _ Hin). }
  destruct (metadata config) as [md|].
  - case_bool_decide as Hkey.
    + split; [by exists md|]. intros _. apply push_elem_of_last.
    + split; [by intros ?%Hnot|]. intros (md' & [= <-] & Hsome). done.
  - split; [by intros ?%Hnot|]. by intros (md' & [=] & _).
Qed.

(** * Further properties of loading *)

Lemma loadFromString_resolved yaml_load vf content config :
  ConfigLoader.loadFromString yaml_load vf content = Resolved config
  ↔ yaml_load content = YamlParsed config
    ∧ valid (ConfigLoader.validate vf config) = true.
Proof.
  unfold ConfigLoader.loadFromString.
  destruct (yaml_load content) as [parsed|message].
  - cbv zeta.
    destruct (valid (ConfigLoader.validate vf parsed)) eqn:Hvalid; cbn [negb].
    + split; [by intros [= ->]|]. by intros [[= ->] _].
    + split; [done|]. intros [[= ->] Hv]. congruence.
  - split; [done|]. by intros [? _].
Qed.

(** X8.  [loadFromString] resolves exactly when the text parses to a
    configuration for which the schema validator supplies no error and
    whose references all resolve, and it resolves to the parsed
    configuration itself; in every other case it rejects. *)
Theorem loadFromString_resolves_iff
    (yaml_load : string → YamlOutcome)
    (validateFunction : ISDLCConfig → AjvOutcome)
    (content : string) (config : ISDLCConfig) :
  ConfigLoader.loadFromString yaml_load validateFunction content = Resolved config
  ↔ yaml_load content = YamlParsed config
    ∧ schemaErrorsOf (validateFunction config) = []
    ∧ referencesIntact config.
Proof. by rewrite loadFromString_resolved, validate_valid_characterised. Qed.

Lemma loadFromFile_cases readFile yaml_load vf filePath :
  (∀ config,
     ConfigLoader.loadFromFile readFile yaml_load vf filePath = Resolved config
     ↔ ∃ content,
         readFile filePath = Resolved content
         ∧ ConfigLoader.loadFromString yaml_load vf content = Resolved config)
  ∧ (∀ message,
       ConfigLoader.loadFromFile readFile yaml_load vf filePath = Rejected message
       ↔ ∃ cause,
           message = "Failed to load configuration from " ++ filePath ++ ": " ++ cause
           ∧ (readFile filePath = Rejected cause
              ∨ ∃ content,
                  readFile filePath = Resolved content
                  ∧ ConfigLoader.loadFromString yaml_load vf content
                    = Rejected cause)).
Proof.
  unfold ConfigLoader.loadFromFile.
  destruct (readFile filePath) as [content|cause] eqn:Hread.
  - destruct (ConfigLoader.loadFromString yaml_load vf content)
      as [loaded|cause] eqn:Hload.
    + split.
      * intros config. split.
        -- intros [= ->]. by exists content.
        -- intros (c & [= <-] & Hc). congruence.
      * intros message. split; [done|].
        intros (cause & _ & [[=]|(c & [= <-] & Hc)]). congruence.
    + split.
      * intros config. split; [done|].
        intros (c & [= <-] & Hc). congruence.
      * intros message. split.
        -- intros [= <-]. exists cause. split; [done|]. right. by exists content.
        -- intros (cause' & -> & [[=]|(c & [= <-] & Hc)]). congruence.
  - split.
    + intros config. split; [done|]. by intros (c & [=] & _).
    + intros message. split.
      * intros [= <-]. exists cause. split; [done|]. by left.
      * intros (cause' & -> & [[= ->]|(c & [=] & _)]). done.
Qed.

(** X9.  [loadFromFile] resolves exactly when the file can be read, its
    content parses, the schema validator supplies no error and every
    reference resolves, and it resolves to the parsed configuration; every
    rejection, whether of the read, of the parser or of the validation,
    carries the message of that failure behind the prefix
    "Failed to load configuration from {filePath}: ". *)
Theorem loadFromFile_outcome
    (readFile : string → Promise string)
    (yaml_load : string → YamlOutcome)
    (validateFunction : ISDLCConfig → AjvOutcome) (filePath : string) :
  (∀ config,
     ConfigLoader.loadFromFile readFile yaml_load validateFunction filePath
     = Resolved config
     ↔ ∃ content,
         readFile filePath = Resolved content
         ∧ yaml_load content = YamlParsed config
         ∧ schemaErrorsOf (validateFunction config) = []
         ∧ referencesIntact config)
  ∧ (∀ message,
       ConfigLoader.loadFromFile readFile yaml_load validateFunction filePath
       = Rejected message
       ↔ ∃ cause,
           message = "Failed to load configuration from " ++ filePath ++ ": " ++ cause
           ∧ (readFile filePath = Rejected cause
              ∨ ∃ content,
                  readFile filePath = Resolved content
                  ∧ ConfigLoader.loadFromString yaml_load validateFunction content
                    = Rejected cause)).
Proof.
  destruct (loadFromFile_cases readFile yaml_load validateFunction filePath)
    as [Hresolved Hrejected].
  split; [|done]. intros config. rewrite Hresolved.
  split; intros (content & Hread & Hload); exists content; split; try done.
  - by rewrite loadFromString_resolved, validate_valid_characterised in Hload.
  - by rewrite loadFromString_resolved, validate_valid_characterised.
Qed.

Example loadFromFile_yaml_exception :
  ConfigLoader.loadFromFile (λ _, Resolved "workflows: ...")
    (λ _, YamlException "bad indentation") Schema.validateFunction "sdlc.yaml"
  = Rejected
      "Failed to load configuration from sdlc.yaml: Invalid YAML syntax: bad indentation".
Proof. reflexivity. Qed.

(** * Further properties of navigation *)

Lemma find_key_elem_of {A} (key : A → string) (l : list A) (x : string) (a : A) :
  find (λ y, String.eqb (key y) x) l = Some a → a ∈ l ∧ key a = x.
Proof.
  intros [Hin Hkey]%find_Some_elem_of. split; [done|]. by apply String.eqb_eq.
Qed.

Lemma find_key_is_Some {A} (key : A → string) (l : list A) (x : string) :
  x ∈ key <$> l → is_Some (find (λ y, String.eqb (key y) x) l).
Proof.
  induction l as [|a l IH]; csimpl; intros Hx.
  - by apply elem_of_nil in Hx.
  - destruct (String.eqb_spec (key a) x) as [|Hne]; [by eexists|].
    apply IH. apply elem_of_cons in Hx as [Hx|Hx]; [congruence|done].
Qed.

Lemma getPhase_inv this workflowId phaseId p :
  PhaseManager.getPhase this workflowId phaseId = Some p →
  ∃ w, PhaseManager.getWorkflow this workflowId = Some w
       ∧ p ∈ phases w ∧ phase_id p = phaseId.
Proof.
  unfold PhaseManager.getPhase, PhaseManager.getWorkflow.
  destruct (PhaseManager.config this) as [cfg|]; [|done].
  destruct (find _ (workflows cfg)) as [w|]; [|done].
  intros [Hin Hid]%find_key_elem_of. by exists w.
Qed.

Lemma getAvailableTransitions_not_found this workflowId phaseId :
  PhaseManager.getPhase this workflowId phaseId = None →
  PhaseManager.getAvailableTransitions this workflowId phaseId = [].
Proof.
  unfold PhaseManager.getAvailableTransitions. intros ->.
  destruct (PhaseManager.config this) as [cfg|]; [|done].
  by destruct (find _ (workflows cfg)).
Qed.

Lemma explicitFrom_elem_of w phaseId t :
  t ∈ explicitFrom w phaseId ↔ t ∈ transitions w ∧ from t = phaseId.
Proof. unfold explicitFrom. by rewrite jfilter_elem_of, String.eqb_eq. Qed.

(** X10.  [getAvailableTransitions] returns nothing for a phase that is
    not found (no configuration, unknown workflow, unknown phase);
    otherwise it returns the explicit transitions of the workflow that
    leave the phase, in declared order, followed by one implicit transition
    [{from, to, conditions: [], metadata: {implicit: true}}], in the order
    of [nextPhases], for every entry of [nextPhases] that is the target of
    none of these explicit transitions. *)
Theorem getAvailableTransitions_layout
    (this : PhaseManager.t) (workflowId phaseId : string) :
  match PhaseManager.getWorkflow this workflowId,
        PhaseManager.getPhase this workflowId phaseId with
  | Some w, Some p =>
      PhaseManager.getAvailableTransitions this workflowId phaseId
      = (explicitFrom w phaseId
         ++ (PhaseManager.implicitTransition phaseId
               <$> jfilter (λ n, bool_decide (n ∉ to <$> explicitFrom w phaseId))
                           (nextPhases p)))%list
  | _, _ => PhaseManager.getAvailableTransitions this workflowId phaseId = []
  end.
Proof.
  destruct (PhaseManager.getWorkflow this workflowId) as [w|] eqn:Hw.
  - destruct (PhaseManager.getPhase this workflowId phaseId) as [p|] eqn:Hp.
    + rewrite (getAvailableTransitions_found _ _ _ _ _ Hw Hp). do 2 f_equal.
      unfold jfilter. apply List.filter_ext. intros n.
      destruct (has _ n) eqn:Hhas; simpl; symmetry.
      * apply bool_decide_eq_false. intros Hn. by apply Hn, has_set_of.
      * apply bool_decide_eq_true. by apply has_set_of_false.
    + by apply getAvailableTransitions_not_found.
  - apply getAvailableTransitions_not_found.
    destruct (PhaseManager.getPhase this workflowId phaseId) as [p|] eqn:Hp; [|done].
    apply getPhase_inv in Hp as (w & Hw' & _). congruence.
Qed.

(** X11.  Every transition that [getAvailableTransitions] returns leaves
    the phase that was asked for. *)
Theorem getAvailableTransitions_sources
    (this : PhaseManager.t) (workflowId phaseId : string) :
  Forall (λ t, from t = phaseId)
    (PhaseManager.getAvailableTransitions this workflowId phaseId).
Proof.
  destruct (PhaseManager.getPhase this workflowId phaseId) as [p|] eqn:Hp.
  - destruct (getPhase_inv _ _ _ _ Hp) as (w & Hw & _).
    rewrite (getAvailableTransitions_found _ _ _ _ _ Hw Hp).
    apply Forall_app. split.
    + apply Forall_forall. by intros t [_ ?]%explicitFrom_elem_of.
    + apply Forall_fmap, Forall_forall. by intros n _.
  - rewrite getAvailableTransitions_not_found; [constructor|done].
Qed.

(** X12.  [canTransition(workflowId, a, b)] is [true] exactly when the
    workflow and the phase [a] are found and either [b] is listed in the
    [nextPhases] of [a] or the workflow has an explicit transition from
    [a] to [b]. *)
Theorem canTransition_iff
    (this : PhaseManager.t) (workflowId a b : string) :
  PhaseManager.canTransition this workflowId a b = true
  ↔ ∃ w p,
      PhaseManager.getWorkflow this workflowId = Some w
      ∧ PhaseManager.getPhase this workflowId a = Some p
      ∧ (b ∈ nextPhases p ∨ Exists (λ t, from t = a ∧ to t = b) (transitions w)).
Proof.
  unfold PhaseManager.canTransition, some. rewrite existsb_exists.
  destruct (PhaseManager.getPhase this workflowId a) as [p|] eqn:Hp.
  - destruct (getPhase_inv _ _ _ _ Hp) as (w & Hw & _).
    rewrite (getAvailableTransitions_found _ _ _ _ _ Hw Hp). split.
    + intros (t & Hin & Hto). apply String.eqb_eq in Hto.
      exists w, p. split_and!; [done|done|].
      apply list_elem_of_In, elem_of_app in Hin as [Hin|Hin].
      * right. apply Exists_exists. exists t.
        apply explicitFrom_elem_of in Hin as [? ?]. done.
      * left. apply list_elem_of_fmap in Hin as (n & -> & Hn).
        apply jfilter_elem_of in Hn as [Hn _]. by subst b.
    + intros (w' & p' & Hw' & [= <-] & Hcases).
      assert (w' = w) as -> by congruence.
      destruct (decide (b ∈ to <$> explicitFrom w a)) as [Hexp|Hnexp].
      * apply list_elem_of_fmap in Hexp as (t & -> & Ht).
        exists t. split; [|by apply String.eqb_eq].
        apply list_elem_of_In, elem_of_app. by left.
      * destruct Hcases as [Hnext|Hex].
        -- exists (PhaseManager.implicitTransition a b).
           split; [|by apply String.eqb_eq].
           apply list_elem_of_In, elem_of_app. right.
           apply list_elem_of_fmap_2, jfilter_elem_of. split; [done|].
           by apply negb_has_dangling.
        -- exfalso. apply Hnexp. apply Exists_exists in Hex as (t & Ht & Hf & <-).
           apply list_elem_of_fmap_2. by apply explicitFrom_elem_of.
  - rewrite getAvailableTransitions_not_found; [|done]. split.
    + by intros (t & [] & _).
    + by intros (w & p & _ & [=] & _).
Qed.

Lemma getAvailableTransitions_nil_nextPhases this workflowId phaseId p :
  PhaseManager.getPhase this workflowId phaseId = Some p →
  PhaseManager.getAvailableTransitions this workflowId phaseId = [] →
  nextPhases p = [].
Proof.
  intros Hp. destruct (getPhase_inv _ _ _ _ Hp) as (w & Hw & _).
  rewrite (getAvailableTransitions_found _ _ _ _ _ Hw Hp).
  intros [Hexplicit Himplicit]%app_eq_nil. rewrite Hexplicit in Himplicit.
  apply fmap_nil_inv in Himplicit.
  destruct (nextPhases p) as [|n ns]; [done|]. discriminate.
Qed.

(** X13.  [validatePhaseCompletion] is valid exactly when the phase is
    found.  With no configuration its only error is "No configuration
    loaded"; with a configuration but no such phase its only error is
    "Phase not found" at [/workflows/{workflowId}/phases/{phaseId}]; for a
    phase that is found it reports no error at all. *)
Theorem validatePhaseCompletion_valid_iff
    (this : PhaseManager.t) (workflowId phaseId : string) :
  (valid (PhaseManager.validatePhaseCompletion this workflowId phaseId) = true
   ↔ is_Some (PhaseManager.getPhase this workflowId phaseId))
  ∧ errors (PhaseManager.validatePhaseCompletion this workflowId phaseId)
    = match PhaseManager.config this,
            PhaseManager.getPhase this workflowId phaseId with
      | None, _ => [ noConfigurationError ]
      | Some _, None => [ phaseNotFoundError workflowId phaseId ]
      | Some _, Some _ => []
      end.
Proof.
  unfold PhaseManager.validatePhaseCompletion.
  destruct (PhaseManager.config this) as [cfg|] eqn:Hcfg.
  - destruct (PhaseManager.getPhase this workflowId phaseId) as [p|]; simpl.
    + split; [|done]. split; [by eexists|done].
    + split; [|done]. split; [done|]. by intros [? ?].
  - simpl. split; [|done]. split; [done|].
    unfold PhaseManager.getPhase. rewrite Hcfg. by intros [? ?].
Qed.

(** X14.  For a phase that is found, the warnings of
    [validatePhaseCompletion] are: the exit-conditions warning when the
    phase has no exit condition, then the dead-end warning when
    [getAvailableTransitions] returns nothing for the phase; the further
    test on [nextPhases] never changes the outcome. *)
Theorem validatePhaseCompletion_warnings
    (this : PhaseManager.t) (workflowId phaseId : string) (p : ISDLCPhase) :
  PhaseManager.getPhase this workflowId phaseId = Some p →
  warnings (PhaseManager.validatePhaseCompletion this workflowId phaseId)
  = ((match exitConditions p with
      | [] => [ exitConditionsWarning workflowId phaseId ]
      | _ => []
      end)
     ++ (match PhaseManager.getAvailableTransitions this workflowId phaseId with
         | [] => [ deadEndWarning workflowId phaseId ]
         | _ => []
         end))%list.
Proof.
  intros Hp. unfold PhaseManager.validatePhaseCompletion.
  pose proof (getAvailableTransitions_nil_nextPhases _ _ _ _ Hp) as Hnil.
  destruct (PhaseManager.config this) as [cfg|] eqn:Hcfg.
  - rewrite Hp. cbn [warnings].
    destruct (PhaseManager.getAvailableTransitions this workflowId phaseId)
      as [|t ts].
    + rewrite (Hnil eq_refl). by destruct (exitConditions p).
    + by destruct (exitConditions p).
  - unfold PhaseManager.getPhase in Hp. by rewrite Hcfg in Hp.
Qed.

Lemma validatePhaseCompletion_warnings_witness :
  warnings (PhaseManager.validatePhaseCompletion
              Fixtures.testManager "test-workflow" "phase2")
  = ((match exitConditions Fixtures.testPhase2 with
      | [] => [ exitConditionsWarning "test-workflow" "phase2" ]
      | _ => []
      end)
     ++ (match PhaseManager.getAvailableTransitions
                 Fixtures.testManager "test-workflow" "phase2" with
         | [] => [ deadEndWarning "test-workflow" "phase2" ]
         | _ => []
         end))%list.
Proof.
  apply (validatePhaseCompletion_warnings Fixtures.testManager
           "test-workflow" "phase2" Fixtures.testPhase2).
  reflexivity.
Defined.

(** X15.  A phase that [getPhase] returns has the identifier that was
    asked for and is one of the phases that [getAllPhases] returns for the
    workflow, which are the phases of the workflow that [getWorkflow]
    returns; without such a workflow [getAllPhases] is empty and [getPhase]
    finds nothing. *)
Theorem getPhase_getAllPhases
    (this : PhaseManager.t) (workflowId phaseId : string) :
  match PhaseManager.getWorkflow this workflowId with
  | Some w =>
      wf_id w = workflowId
      ∧ PhaseManager.getAllPhases this workflowId = phases w
      ∧ (phaseId ∈ phase_id <$> phases w
         ↔ is_Some (PhaseManager.getPhase this workflowId phaseId))
      ∧ ∀ p, PhaseManager.getPhase this workflowId phaseId = Some p →
             p ∈ phases w ∧ phase_id p = phaseId
  | None =>
      PhaseManager.getAllPhases this workflowId = []
      ∧ PhaseManager.getPhase this workflowId phaseId = None
  end.
Proof.
  unfold PhaseManager.getAllPhases, PhaseManager.getPhase, PhaseManager.getWorkflow.
  destruct (PhaseManager.config this) as [cfg|]; [|done].
  destruct (find _ (workflows cfg)) as [w|] eqn:Hw; [|done].
  apply find_key_elem_of in Hw as [_ Hid]. split_and!; [done|done| |].
  - split; [apply find_key_is_Some|].
    intros [p [Hin <-]%find_key_elem_of]. by apply list_elem_of_fmap_2.
  - intros p. apply find_key_elem_of.
Qed.

(** X16.  In a configuration whose references all resolve, as [validate]
    checks them, every transition that [getAvailableTransitions] returns
    targets a phase that [getPhase] finds in the same workflow; so does
    every move that [canTransition] allows. *)
Theorem intact_targets_exist
    (this : PhaseManager.t) (config : ISDLCConfig) (workflowId phaseId : string) :
  PhaseManager.config this = Some config →
  referencesIntact config →
  Forall (λ t, is_Some (PhaseManager.getPhase this workflowId (to t)))
    (PhaseManager.getAvailableTransitions this workflowId phaseId)
  ∧ ∀ target, PhaseManager.canTransition this workflowId phaseId target = true →
              is_Some (PhaseManager.getPhase this workflowId target).
Proof.
  intros Hcfg Hintact.
  assert (Htargets :
    Forall (λ t, is_Some (PhaseManager.getPhase this workflowId (to t)))
      (PhaseManager.getAvailableTransitions this workflowId phaseId)).
  { destruct (PhaseManager.getPhase this workflowId phaseId) as [p|] eqn:Hp;
      [|rewrite getAvailableTransitions_not_found; [constructor|done]].
    destruct (getPhase_inv _ _ _ _ Hp) as (w & Hw & Hpin & _).
    rewrite (getAvailableTransitions_found _ _ _ _ _ Hw Hp).
    assert (Hfound : ∀ x, x ∈ phase_id <$> phases w →
                          is_Some (PhaseManager.getPhase this workflowId x)).
    { intros x Hx. unfold PhaseManager.getPhase.
      unfold PhaseManager.getWorkflow in Hw. rewrite Hcfg in Hw |- *.
      rewrite Hw. by apply find_key_is_Some. }
    assert (Hwin : w ∈ workflows config).
    { unfold PhaseManager.getWorkflow in Hw. rewrite Hcfg in Hw.
      by apply find_Some_elem_of in Hw as [? _]. }
    destruct (proj1 (Forall_forall _ _) Hintact w Hwin) as (_ & Hphases & Htrans).
    apply Forall_app. split.
    - apply Forall_forall. intros t [Ht _]%explicitFrom_elem_of.
      apply Hfound. by destruct (proj1 (Forall_forall _ _) Htrans t Ht).
    - apply Forall_fmap, Forall_forall. intros n [Hn _]%jfilter_elem_of. simpl.
      apply Hfound.
      destruct (proj1 (Forall_forall _ _) Hphases p Hpin) as [Hnext _].
      by apply (proj1 (Forall_forall _ _) Hnext). }
  split; [done|].
  intros target Hcan. unfold PhaseManager.canTransition, some in Hcan.
  apply existsb_exists in Hcan as (t & Hin & <-%String.eqb_eq).
  by apply (proj1 (Forall_forall _ _) Htargets), list_elem_of_In.
Qed.

Lemma intact_targets_exist_witness :
  Forall (λ t, is_Some (PhaseManager.getPhase Fixtures.testManager
                          "test-workflow" (to t)))
    (PhaseManager.getAvailableTransitions Fixtures.testManager
       "test-workflow" "phase1")
  ∧ ∀ target,
      PhaseManager.canTransition Fixtures.testManager
        "test-workflow" "phase1" target = true →
      is_Some (PhaseManager.getPhase Fixtures.testManager "test-workflow" target).
Proof.
  apply (intact_targets_exist Fixtures.testManager Fixtures.testConfig
           "test-workflow" "phase1").
  - reflexivity.
  - apply referencesResolve_intact. vm_compute. repeat constructor.
Defined.

(** * Further properties of merging *)

Lemma opt_or_assoc {A} (a b c : option A) :
  opt_or c (opt_or b a) = opt_or (opt_or c b) a.
Proof. by destruct c, b. Qed.

Lemma opt_or_None_r {A} (a : option A) : opt_or a None = a.
Proof. by destruct a. Qed.

Lemma spreadTimeoutSettings_assoc (a b c : option ITimeoutSettings) :
  spreadTimeoutSettings (Some (spreadTimeoutSettings a b)) c
  = spreadTimeoutSettings a (Some (spreadTimeoutSettings b c)).
Proof.
  unfold spreadTimeoutSettings. simpl. by rewrite !opt_or_assoc.
Qed.

Lemma spreadIntegrationSettings_assoc (a b c : option IIntegrationSettings) :
  spreadIntegrationSettings (Some (spreadIntegrationSettings a b)) c
  = spreadIntegrationSettings a (Some (spreadIntegrationSettings b c)).
Proof.
  unfold spreadIntegrationSettings. simpl. by rewrite !opt_or_assoc.
Qed.

(** X17.  Merging settings is associative: applying an override [c] to the
    merge of [a] and [b] gives the same settings as applying the merge of
    [b] and [c] to [a], whichever of the three are absent. *)
Theorem mergeWorkflowSettings_assoc (a b c : option IWorkflowSettings) :
  ConfigMerger.mergeWorkflowSettings (ConfigMerger.mergeWorkflowSettings a b) c
  = ConfigMerger.mergeWorkflowSettings a (ConfigMerger.mergeWorkflowSettings b c).
Proof.
  destruct a as [a|], b as [b|], c as [c|]; try reflexivity.
  cbn [ConfigMerger.mergeWorkflowSettings requireApprovalForTransitions
         defaultApprovers notificationChannels timeoutSettings integrations].
  by rewrite !opt_or_assoc, spreadTimeoutSettings_assoc,
    spreadIntegrationSettings_assoc.
Qed.

(** X18.  In merged metadata every key has the value that [override]
    gives it when [override] has the key, and [base]'s otherwise, an
    absent side counting as an object without keys; the result is absent
    only when both sides are. *)
Theorem mergeMetadata_lookup (base override : option (gmap string JValue)) :
  (∀ k, default ∅ (ConfigMerger.mergeMetadata base override) !! k
        = match default ∅ override !! k with
          | Some v => Some v
          | None => default ∅ base !! k
          end)
  ∧ (ConfigMerger.mergeMetadata base override = None
     ↔ base = None ∧ override = None).
Proof.
  split.
  - intros k. destruct base as [b|], override as [o|]; simpl.
    + unfold spread. rewrite lookup_union. by destruct (o !! k), (b !! k).
    + rewrite lookup_empty. by destruct (b !! k).
    + rewrite lookup_empty. by destruct (o !! k).
    + by rewrite lookup_empty.
  - destruct base, override; simpl; split; try done; by intros [? ?].
Qed.

(** The two loops of [mergeWorkflows] and [mergeEnvironments] as list
    functions, for keys that are pairwise distinct. *)
Section merge_loops.
Context {V : Type} (key : V → string) (mrg : V → V → V).

Lemma JsMap_set_absent (m : list (string * V)) k v :
  k ∉ JsMap.keys m → JsMap.set m k v = (m ++ [(k, v)])%list.
Proof.
  unfold JsMap.keys. induction m as [|[k' v'] m IH]; csimpl; intros Hk; [done|].
  apply not_elem_of_cons in Hk as [Hne Hk].
  destruct (String.eqb_spec k' k) as [|_]; [congruence|]. by rewrite IH.
Qed.

Lemma JsMap_set_present (m : list (string * V)) k e (f : V → V) :
  NoDup (JsMap.keys m) → JsMap.get m k = Some e →
  JsMap.set m k (f e)
  = (λ kv, if String.eqb kv.1 k then (kv.1, f kv.2) else kv) <$> m.
Proof.
  unfold JsMap.keys. induction m as [|[k' v'] m IH]; csimpl; intros Hnd Hget; [done|].
  apply NoDup_cons in Hnd as [Hnotin Hnd].
  destruct (String.eqb_spec k' k) as [->|Hne].
  - injection Hget as ->. f_equal. symmetry.
    transitivity (id <$> m); [|apply list_fmap_id].
    apply Forall_fmap_ext_1, Forall_forall. intros [k'' v''] Hin. simpl.
    destruct (String.eqb_spec k'' k) as [->|]; [|done].
    exfalso. apply Hnotin. by apply (list_elem_of_fmap_2 fst) in Hin.
  - f_equal. by apply IH.
Qed.

Lemma find_key_None (l : list V) k :
  k ∉ key <$> l → find (λ o, String.eqb (key o) k) l = None.
Proof.
  intros Hk. apply find_None_Forall, Forall_forall. intros o Ho.
  apply String.eqb_neq. intros Heq. apply Hk. rewrite <- Heq.
  by apply list_elem_of_fmap_2.
Qed.

Lemma insert_loop (l : list V) (i : nat) (m : list (string * V)) :
  NoDup (JsMap.keys m ++ (key <$> l)) →
  forEach_from i l (λ x _ m, JsMap.set m (key x) x) m
  = (m ++ ((λ x, (key x, x)) <$> l))%list.
Proof.
  revert i m. induction l as [|x l IH]; intros i m Hnd; csimpl.
  - by rewrite app_nil_r.
  - apply NoDup_app in Hnd as (Hm & Hdisj & Hl).
    apply NoDup_cons in Hl as [Hx Hl].
    rewrite JsMap_set_absent; [|intros Hin; apply (Hdisj _ Hin); left].
    rewrite IH; [by rewrite <- app_assoc|].
    unfold JsMap.keys. rewrite fmap_app. csimpl. rewrite <- app_assoc. csimpl.
    apply NoDup_app. split_and!; [done| |by apply NoDup_cons].
    intros k Hk. by apply Hdisj.
Qed.

Lemma merge_loop (l : list V) (i : nat) (m : list (string * V)) :
  NoDup (key <$> l) → NoDup (JsMap.keys m) →
  forEach_from i l
    (λ x _ m,
       match JsMap.get m (key x) with
       | Some existing => JsMap.set m (key x) (mrg existing x)
       | None => JsMap.set m (key x) x
       end) m
  = (((λ kv, match find (λ o, String.eqb (key o) kv.1) l with
             | Some o => (kv.1, mrg kv.2 o)
             | None => kv
             end) <$> m)
     ++ ((λ o, (key o, o))
           <$> jfilter (λ o, bool_decide (key o ∉ JsMap.keys m)) l))%list.
Proof.
  revert i m. induction l as [|o l IH]; intros i m Hl Hm; csimpl.
  - rewrite app_nil_r. symmetry. transitivity (id <$> m); [|apply list_fmap_id].
    by apply Forall_fmap_ext_1, Forall_forall.
  - apply NoDup_cons in Hl as [Ho Hl].
    destruct (JsMap.get m (key o)) as [e|] eqn:Hget.
    + assert (Hin : key o ∈ JsMap.keys m).
      { destruct (decide (key o ∈ JsMap.keys m)) as [|Hn]; [done|].
        apply JsMap_get_None in Hn. congruence. }
      rewrite (JsMap_set_present m (key o) e (λ e, mrg e o) Hm Hget).
      set (G := λ kv : string * V,
             if String.eqb kv.1 (key o) then (kv.1, mrg kv.2 o) else kv).
      assert (Hkeys : JsMap.keys (G <$> m) = JsMap.keys m).
      { unfold JsMap.keys. rewrite <- list_fmap_compose.
        apply Forall_fmap_ext_1, Forall_forall. intros kv _. unfold G. simpl.
        by destruct (String.eqb kv.1 (key o)). }
      rewrite IH; [|done|by rewrite Hkeys]. rewrite Hkeys.
      rewrite (bool_decide_eq_false_2 _ (λ Hn, Hn Hin)).
      f_equal. rewrite <- list_fmap_compose.
      apply Forall_fmap_ext_1, Forall_forall. intros [k v] _. unfold G. simpl.
      rewrite (String.eqb_sym (key o) k).
      destruct (String.eqb_spec k (key o)) as [->|Hne]; simpl; [|done].
      by rewrite (find_key_None l (key o) Ho).
    + assert (Hnotin : key o ∉ JsMap.keys m) by by apply JsMap_get_None.
      rewrite (JsMap_set_absent m _ _ Hnotin).
      rewrite IH; [|done|].
      2:{ unfold JsMap.keys. rewrite fmap_app. csimpl.
          apply NoDup_app. split_and!; [done| |apply NoDup_singleton].
          intros k Hk Hk'. apply list_elem_of_singleton in Hk'. by subst. }
      rewrite (bool_decide_eq_true_2 _ Hnotin). rewrite fmap_app. csimpl.
      rewrite (find_key_None l (key o) Ho). rewrite <- app_assoc. csimpl.
      f_equal; [|f_equal; f_equal].
      * apply Forall_fmap_ext_1, Forall_forall. intros [k v] Hin. simpl.
        destruct (String.eqb_spec (key o) k) as [<-|]; [|done].
        exfalso. apply Hnotin. by apply (list_elem_of_fmap_2 fst) in Hin.
      * unfold jfilter. apply List.filter_ext_in. intros o' Ho'.
        apply bool_decide_ext. unfold JsMap.keys. rewrite fmap_app. csimpl.
        rewrite elem_of_app, list_elem_of_singleton.
        assert (key o' ≠ key o).
        { intros Heq. apply Ho. rewrite <- Heq.
          by apply list_elem_of_fmap_2, list_elem_of_In. }
        tauto.
Qed.
End merge_loops.

Lemma keys_of_values {V} (key : V → string) (l : list V) :
  JsMap.keys ((λ x, (key x, x)) <$> l) = key <$> l.
Proof.
  unfold JsMap.keys. rewrite <- list_fmap_compose.
  by apply Forall_fmap_ext_1, Forall_forall.
Qed.

(** Both loops, from the empty map, followed by [values()]. *)
Lemma merge_by_key {V} (key : V → string) (mrg : V → V → V) (base override : list V) :
  NoDup (key <$> base) → NoDup (key <$> override) →
  JsMap.values
    (forEach_from 0 override
       (λ x _ m,
          match JsMap.get m (key x) with
          | Some existing => JsMap.set m (key x) (mrg existing x)
          | None => JsMap.set m (key x) x
          end)
       (forEach_from 0 base (λ x _ m, JsMap.set m (key x) x) []))
  = (((λ b, match find (λ o, String.eqb (key o) (key b)) override with
            | Some o => mrg b o
            | None => b
            end) <$> base)
     ++ jfilter (λ o, bool_decide (key o ∉ key <$> base)) override)%list.
Proof.
  intros Hbase Hoverride.
  rewrite (insert_loop key base 0 []); [|done]. simpl.
  rewrite (merge_loop key mrg override 0); [|done|by rewrite keys_of_values].
  rewrite keys_of_values. unfold JsMap.values. rewrite fmap_app. f_equal.
  - rewrite <- !list_fmap_compose.
    apply Forall_fmap_ext_1, Forall_forall. intros b _. simpl.
    by destruct (find _ override).
  - rewrite <- list_fmap_compose. transitivity (id <$> jfilter
      (λ o, bool_decide (key o ∉ key <$> base)) override); [|apply list_fmap_id].
    by apply Forall_fmap_ext_1, Forall_forall.
Qed.

(** X19.  With pairwise distinct workflow identifiers on each side,
    [mergeWorkflows] returns the base workflows in their order, each one
    merged by [mergeWorkflow] with the override workflow of the same
    identifier when there is one and kept as it is otherwise, followed by
    the override workflows whose identifier the base does not have, in
    their order and as they are. *)
Theorem mergeWorkflows_spec (baseWorkflows overrideWorkflows : list ISDLCWorkflow) :
  NoDup (wf_id <$> baseWorkflows) →
  NoDup (wf_id <$> overrideWorkflows) →
  ConfigMerger.mergeWorkflows baseWorkflows (Some overrideWorkflows)
  = (((λ b, match find (λ o, String.eqb (wf_id o) (wf_id b)) overrideWorkflows with
            | Some o => ConfigMerger.mergeWorkflow b o
            | None => b
            end) <$> baseWorkflows)
     ++ jfilter (λ o, bool_decide (wf_id o ∉ wf_id <$> baseWorkflows))
          overrideWorkflows)%list.
Proof.
  intros Hbase Hoverride. unfold ConfigMerger.mergeWorkflows.
  destruct overrideWorkflows as [|o os] eqn:Hov.
  - simpl. rewrite app_nil_r. symmetry. apply list_fmap_id.
  - rewrite <- Hov in *. unfold forEach, JsMap.empty.
    by apply (merge_by_key wf_id ConfigMerger.mergeWorkflow).
Qed.

Lemma mergeWorkflows_spec_witness :
  ConfigMerger.mergeWorkflows (workflows Fixtures.testConfig)
    (Some (workflows Fixtures.correctConfig))
  = (((λ b, match find (λ o, String.eqb (wf_id o) (wf_id b))
                    (workflows Fixtures.correctConfig) with
            | Some o => ConfigMerger.mergeWorkflow b o
            | None => b
            end) <$> workflows Fixtures.testConfig)
     ++ jfilter (λ o, bool_decide (wf_id o ∉ wf_id <$> workflows Fixtures.testConfig))
          (workflows Fixtures.correctConfig))%list.
Proof.
  apply (mergeWorkflows_spec (workflows Fixtures.testConfig)
           (workflows Fixtures.correctConfig)).
  - vm_compute. apply NoDup_singleton.
  - vm_compute. apply NoDup_singleton.
Defined.

(** X20.  With pairwise distinct environment names on each side, and both
    sides present, [mergeEnvironments] returns the base environments in
    their order, each one merged with the override environment of the same
    name when there is one ([overrides] by the settings merge,
    [featureFlags] and [variables] key by key with the override winning)
    and kept as it is otherwise, followed by the override environments
    whose name the base does not have. *)
Theorem mergeEnvironments_spec (base override : list IEnvironmentConfig) :
  NoDup (env_name <$> base) →
  NoDup (env_name <$> override) →
  ConfigMerger.mergeEnvironments (Some base) (Some override)
  = Some (((λ b, match find (λ o, String.eqb (env_name o) (env_name b)) override with
                 | Some o => mergedEnvironment b o
                 | None => b
                 end) <$> base)
          ++ jfilter (λ o, bool_decide (env_name o ∉ env_name <$> base)) override)%list.
Proof.
  intros Hbase Hoverride. unfold ConfigMerger.mergeEnvironments. f_equal.
  unfold forEach, JsMap.empty.
  exact (merge_by_key env_name mergedEnvironment base override Hbase Hoverride).
Qed.

Lemma mergeEnvironments_spec_witness :
  ConfigMerger.mergeEnvironments (Some [Fixtures.devEnvironment])
    (Some [Fixtures.devEnvironment])
  = Some [ mergedEnvironment Fixtures.devEnvironment Fixtures.devEnvironment ].
Proof.
  apply (mergeEnvironments_spec [Fixtures.devEnvironment] [Fixtures.devEnvironment]).
  - apply NoDup_singleton.
  - apply NoDup_singleton.
Defined.

Lemma JsMap_set_Forall {V} (P : V → Prop) (m : list (string * V)) k v :
  Forall (λ kv, P kv.2) m → P v → Forall (λ kv, P kv.2) (JsMap.set m k v).
Proof.
  intros Hm Hv. induction m as [|[k' v'] m IH]; csimpl.
  - by repeat constructor.
  - apply Forall_cons in Hm as [Hhd Htl].
    destruct (String.eqb k' k); constructor; auto.
Qed.

Lemma mergeWorkflows_Forall (P : ISDLCWorkflow → Prop)
    (baseWorkflows : list ISDLCWorkflow) (overrideWorkflows : list ISDLCWorkflow) :
  (∀ existing o, P o → P (ConfigMerger.mergeWorkflow existing o)) →
  Forall P baseWorkflows → Forall P overrideWorkflows →
  Forall P (ConfigMerger.mergeWorkflows baseWorkflows (Some overrideWorkflows)).
Proof.
  intros Hmerge Hbase Hoverride. unfold ConfigMerger.mergeWorkflows.
  destruct overrideWorkflows as [|o os] eqn:Hov; [done|]. rewrite <- Hov in *.
  unfold JsMap.values. apply Forall_fmap.
  apply (forEach_invariant (λ m : list (string * ISDLCWorkflow),
                              Forall (λ kv, P kv.2) m)).
  - apply (forEach_invariant (λ m : list (string * ISDLCWorkflow),
                                Forall (λ kv, P kv.2) m)); [constructor|].
    intros k w m Hw Hm. apply JsMap_set_Forall; [done|].
    by apply (Forall_lookup_1 _ _ _ _ Hbase Hw).
  - intros k w m Hw Hm.
    pose proof (Forall_lookup_1 _ _ _ _ Hoverride Hw) as HPw.
    destruct (JsMap.get m (wf_id w)); apply JsMap_set_Forall; auto.
Qed.

(** X21.  Merging keeps references whole: when every reference of [base]
    and every reference of [override] resolves, as [validate] checks them,
    every reference of [merge(base, override)] resolves; a merged workflow
    takes its [initialPhase], [phases] and [transitions] together from the
    override. *)
Theorem merge_preserves_references (base override : ISDLCConfig) :
  referencesIntact base →
  referencesIntact override →
  referencesIntact (ConfigMerger.merge base override).
Proof.
  intros Hbase Hoverride. unfold referencesIntact. cbn [ConfigMerger.merge workflows].
  apply mergeWorkflows_Forall; [|done|done].
  intros existing o Ho. exact Ho.
Qed.

Lemma merge_preserves_references_witness :
  referencesIntact (ConfigMerger.merge Fixtures.testConfig Fixtures.correctConfig).
Proof.
  apply (merge_preserves_references Fixtures.testConfig Fixtures.correctConfig).
  - apply referencesResolve_intact. vm_compute. repeat constructor.
  - apply referencesResolve_intact. vm_compute. repeat constructor.
Defined.

(** The merger's unit test "should override existing workflows", and a
    merge that validates. *)
Example merge_then_validate :
  valid (ConfigLoader.validate Schema.validateFunction
           (ConfigMerger.merge Fixtures.testConfig Fixtures.correctConfig)) = true.
Proof. reflexivity. Qed.

(** The workflows of [mergeEnvironment] when the environment is found. *)
Lemma mergeEnvironment_workflows config name envs env :
  environments config = Some envs →
  find (λ e, String.eqb (env_name e) name) envs = Some env →
  workflows (ConfigMerger.mergeEnvironment config name)
  = (λ w, match overrides env with
          | Some o =>
              ConfigMerger.withGlobalSettings (JsonClone.workflow w)
                (ConfigMerger.mergeWorkflowSettings
                   (JsonClone.workflowSettings <$> globalSettings w) (Some o))
          | None => JsonClone.workflow w
          end) <$> workflows config.
Proof.
  intros Henvs Hfind. unfold ConfigMerger.mergeEnvironment.
  rewrite Henvs, Hfind. cbn [workflows JsonClone.config].
  destruct (overrides env) as [o|]; [|done].
  rewrite <- list_fmap_compose.
  apply Forall_fmap_ext_1, Forall_forall. intros w _. simpl.
  by destruct (globalSettings w).
Qed.

(** X22.  When the environment is found, [mergeEnvironment] keeps the
    workflows in place with their identifiers, and gives every workflow the
    settings merge of its own (cloned) [globalSettings] with the
    environment's [overrides]: a workflow without settings receives the
    overrides as they are; without [overrides] the settings are only
    cloned. *)
Theorem mergeEnvironment_settings
    (config : ISDLCConfig) (name : string)
    (envs : list IEnvironmentConfig) (env : IEnvironmentConfig) :
  environments config = Some envs →
  find (λ e, String.eqb (env_name e) name) envs = Some env →
  wf_id <$> workflows (ConfigMerger.mergeEnvironment config name)
  = wf_id <$> workflows config
  ∧ globalSettings <$> workflows (ConfigMerger.mergeEnvironment config name)
    = (λ w, match overrides env with
            | Some o =>
                ConfigMerger.mergeWorkflowSettings
                  (JsonClone.workflowSettings <$> globalSettings w) (Some o)
            | None => JsonClone.workflowSettings <$> globalSettings w
            end) <$> workflows config.
Proof.
  intros Henvs Hfind. rewrite (mergeEnvironment_workflows _ _ _ _ Henvs Hfind).
  rewrite <- !list_fmap_compose. split.
  - apply Forall_fmap_ext_1, Forall_forall. intros w _. simpl.
    by destruct (overrides env).
  - apply Forall_fmap_ext_1, Forall_forall. intros w _. simpl.
    by destruct (overrides env).
Qed.

Lemma mergeEnvironment_settings_witness :
  wf_id <$> workflows (ConfigMerger.mergeEnvironment Fixtures.devConfig "dev")
  = wf_id <$> workflows Fixtures.devConfig
  ∧ globalSettings <$> workflows (ConfigMerger.mergeEnvironment Fixtures.devConfig "dev")
    = (λ w, match overrides Fixtures.devEnvironment with
            | Some o =>
                ConfigMerger.mergeWorkflowSettings
                  (JsonClone.workflowSettings <$> globalSettings w) (Some o)
            | None => JsonClone.workflowSettings <$> globalSettings w
            end) <$> workflows Fixtures.devConfig.
Proof.
  apply (mergeEnvironment_settings Fixtures.devConfig "dev"
           [Fixtures.devEnvironment] Fixtures.devEnvironment).
  - reflexivity.
  - reflexivity.
Defined.

(** X23.  When the environment is found, the metadata of the result is
    present and has [appliedEnvironment] set to the name,
    [environmentVariables] to the environment's [variables] and
    [featureFlags] to its [featureFlags] ([undefined] when the environment
    has none), whatever these keys held before; every other key keeps the
    JSON clone of its value, and a key whose value was [undefined] is
    dropped. *)
Theorem mergeEnvironment_metadata
    (config : ISDLCConfig) (name : string)
    (envs : list IEnvironmentConfig) (env : IEnvironmentConfig) :
  environments config = Some envs →
  find (λ e, String.eqb (env_name e) name) envs = Some env →
  ∃ md,
    metadata (ConfigMerger.mergeEnvironment config name) = Some md
    ∧ md !! "appliedEnvironment" = Some (JStr name)
    ∧ md !! "environmentVariables"
      = Some (ConfigMerger.unknownOf JStr (variables env))
    ∧ md !! "featureFlags" = Some (ConfigMerger.unknownOf JBool (featureFlags env))
    ∧ ∀ k, k ≠ "appliedEnvironment" → k ≠ "environmentVariables" →
           k ≠ "featureFlags" →
           md !! k
           = match default ∅ (metadata config) !! k with
             | Some v => if is_undefined v then None else Some (jsonCloneValue v)
             | None => None
             end.
Proof.
  intros Henvs Hfind. unfold ConfigMerger.mergeEnvironment.
  rewrite Henvs, Hfind. cbn [metadata JsonClone.config].
  eexists. split; [reflexivity|]. split_and!.
  - rewrite lookup_insert_ne; [|done]. rewrite lookup_insert_ne; [|done].
    by rewrite lookup_insert_eq.
  - rewrite lookup_insert_ne; [|done]. by rewrite lookup_insert_eq.
  - by rewrite lookup_insert_eq.
  - intros k H1 H2 H3. rewrite !lookup_insert_ne by done.
    destruct (metadata config) as [m|]; simpl.
    + unfold jsonCloneObject. rewrite lookup_omap. by destruct (m !! k).
    + by rewrite lookup_empty.
Qed.

Lemma mergeEnvironment_metadata_witness :
  ∃ md,
    metadata (ConfigMerger.mergeEnvironment Fixtures.devConfig "dev") = Some md
    ∧ md !! "appliedEnvironment" = Some (JStr "dev")
    ∧ md !! "environmentVariables"
      = Some (ConfigMerger.unknownOf JStr (variables Fixtures.devEnvironment))
    ∧ md !! "featureFlags"
      = Some (ConfigMerger.unknownOf JBool (featureFlags Fixtures.devEnvironment))
    ∧ ∀ k, k ≠ "appliedEnvironment" → k ≠ "environmentVariables" →
           k ≠ "featureFlags" →
           md !! k
           = match default ∅ (metadata Fixtures.devConfig) !! k with
             | Some v => if is_undefined v then None else Some (jsonCloneValue v)
             | None => None
             end.
Proof.
  apply (mergeEnvironment_metadata Fixtures.devConfig "dev"
           [Fixtures.devEnvironment] Fixtures.devEnvironment).
  - reflexivity.
  - reflexivity.
Defined.

Lemma find_fmap {A} (c : A → bool) (f : A → A) (l : list A) :
  (∀ x, c (f x) = c x) → find c (f <$> l) = f <$> find c l.
Proof.
  intros Hc. induction l as [|a l IH]; csimpl; [done|].
  rewrite Hc. by destruct (c a).
Qed.

Lemma jfilter_fmap {A} (c : A → bool) (f : A → A) (l : list A) :
  (∀ x, c (f x) = c x) → jfilter c (f <$> l) = f <$> jfilter c l.
Proof.
  intros Hc. induction l as [|a l IH]; csimpl; [done|].
  rewrite Hc. destruct (c a); csimpl; by rewrite IH.
Qed.

(** What [mergeEnvironment] does to the workflows: nothing, or a change
    that keeps the identifier, the initial phase, and the phases and
    transitions up to the JSON clone of their metadata. *)
Lemma mergeEnvironment_graph config name :
  ConfigMerger.mergeEnvironment config name = config
  ∨ ∃ T : ISDLCWorkflow → ISDLCWorkflow,
      workflows (ConfigMerger.mergeEnvironment config name) = T <$> workflows config
      ∧ ∀ w, wf_id (T w) = wf_id w
             ∧ initialPhase (T w) = initialPhase w
             ∧ phases (T w) = JsonClone.phase <$> phases w
             ∧ transitions (T w) = JsonClone.transition <$> transitions w.
Proof.
  destruct (environments config) as [envs|] eqn:Henvs.
  - destruct (find (λ e, String.eqb (env_name e) name) envs) as [env|] eqn:Hfind.
    + right. eexists. split; [by apply (mergeEnvironment_workflows _ _ envs env)|].
      intros w. by destruct (overrides env).
    + left. unfold ConfigMerger.mergeEnvironment. by rewrite Henvs, Hfind.
  - left. unfold ConfigMerger.mergeEnvironment. by rewrite Henvs.
Qed.

Lemma targets_of_cloned_graph this config config' (T : ISDLCWorkflow → ISDLCWorkflow)
    workflowId phaseId :
  workflows config' = T <$> workflows config →
  (∀ w, wf_id (T w) = wf_id w
        ∧ initialPhase (T w) = initialPhase w
        ∧ phases (T w) = JsonClone.phase <$> phases w
        ∧ transitions (T w) = JsonClone.transition <$> transitions w) →
  to <$> PhaseManager.getAvailableTransitions
           (PhaseManager.setConfig this config') workflowId phaseId
  = to <$> PhaseManager.getAvailableTransitions
             (PhaseManager.setConfig this config) workflowId phaseId.
Proof.
  intros Hws HT.
  set (this' := PhaseManager.setConfig this config').
  set (this0 := PhaseManager.setConfig this config).
  assert (Hw : PhaseManager.getWorkflow this' workflowId
               = T <$> PhaseManager.getWorkflow this0 workflowId).
  { unfold PhaseManager.getWorkflow. simpl. rewrite Hws.
    apply find_fmap. intros w. by destruct (HT w) as (-> & _). }
  assert (Hp : PhaseManager.getPhase this' workflowId phaseId
               = JsonClone.phase <$> PhaseManager.getPhase this0 workflowId phaseId).
  { unfold PhaseManager.getWorkflow in Hw. unfold PhaseManager.getPhase.
    simpl in *. rewrite Hw.
    destruct (find _ (workflows config)) as [w|]; [|done]. simpl.
    destruct (HT w) as (_ & _ & -> & _). by apply find_fmap. }
  destruct (PhaseManager.getPhase this0 workflowId phaseId) as [p|] eqn:Hp0.
  - destruct (getPhase_inv _ _ _ _ Hp0) as (w & Hw0 & _).
    rewrite Hw0 in Hw. simpl in Hw, Hp.
    rewrite (getAvailableTransitions_found _ _ _ _ _ Hw Hp).
    rewrite (getAvailableTransitions_found _ _ _ _ _ Hw0 Hp0).
    assert (Hexplicit : explicitFrom (T w) phaseId
                        = JsonClone.transition <$> explicitFrom w phaseId).
    { unfold explicitFrom. destruct (HT w) as (_ & _ & _ & ->).
      by apply jfilter_fmap. }
    assert (Htargets : to <$> explicitFrom (T w) phaseId = to <$> explicitFrom w phaseId).
    { rewrite Hexplicit, <- list_fmap_compose.
      by apply Forall_fmap_ext_1, Forall_forall. }
    rewrite !fmap_app, !to_implicitTransition. rewrite Htargets. done.
  - simpl in Hp.
    rewrite (getAvailableTransitions_not_found _ _ _ Hp).
    by rewrite (getAvailableTransitions_not_found _ _ _ Hp0).
Qed.

Lemma canTransition_targets this workflowId a b :
  PhaseManager.canTransition this workflowId a b
  = existsb (λ x, String.eqb x b)
      (to <$> PhaseManager.getAvailableTransitions this workflowId a).
Proof.
  unfold PhaseManager.canTransition, some.
  induction (PhaseManager.getAvailableTransitions this workflowId a) as [|t l IH];
    csimpl; [done|]. by rewrite IH.
Qed.

(** X24.  Applying an environment does not change the transition graph:
    whether or not the environment is found, [getAvailableTransitions]
    returns transitions to the same targets in the same order, and
    [canTransition] gives the same answers, on the result as on the
    configuration itself. *)
Theorem mergeEnvironment_preserves_navigation
    (this : PhaseManager.t) (config : ISDLCConfig)
    (name workflowId phaseId : string) :
  to <$> PhaseManager.getAvailableTransitions
           (PhaseManager.setConfig this (ConfigMerger.mergeEnvironment config name))
           workflowId phaseId
  = to <$> PhaseManager.getAvailableTransitions
             (PhaseManager.setConfig this config) workflowId phaseId
  ∧ ∀ target,
      PhaseManager.canTransition
        (PhaseManager.setConfig this (ConfigMerger.mergeEnvironment config name))
        workflowId phaseId target
      = PhaseManager.canTransition
          (PhaseManager.setConfig this config) workflowId phaseId target.
Proof.
  assert (Htargets :
    to <$> PhaseManager.getAvailableTransitions
             (PhaseManager.setConfig this (ConfigMerger.mergeEnvironment config name))
             workflowId phaseId
    = to <$> PhaseManager.getAvailableTransitions
               (PhaseManager.setConfig this config) workflowId phaseId).
  { destruct (mergeEnvironment_graph config name) as [->|(T & Hws & HT)]; [done|].
    by apply (targets_of_cloned_graph this config _ T). }
  split; [done|]. intros target. by rewrite !canTransition_targets, Htargets.
Qed.

(** X25.  Applying an environment keeps references whole: every reference
    of [mergeEnvironment(config, name)] resolves, as [validate] checks
    them, exactly when every reference of [config] does. *)
Theorem mergeEnvironment_preserves_references (config : ISDLCConfig) (name : string) :
  referencesIntact (ConfigMerger.mergeEnvironment config name)
  ↔ referencesIntact config.
Proof.
  destruct (mergeEnvironment_graph config name) as [->|(T & Hws & HT)]; [done|].
  unfold referencesIntact. rewrite Hws, Forall_fmap.
  apply Forall_iff. intros w. simpl.
  destruct (HT w) as (_ & Hinit & Hphases & Htrans).
  unfold workflowIntact. rewrite Hinit, Hphases, Htrans.
  assert (Hids : phase_id <$> (JsonClone.phase <$> phases w) = phase_id <$> phases w).
  { rewrite <- list_fmap_compose. by apply Forall_fmap_ext_1, Forall_forall. }
  rewrite !Forall_fmap.
  unfold phaseResolved, transitionResolved. rewrite Hphases, Hids. done.
Qed.
